(** * lstchain.onsite: calibration-file lookup and the [pro] symlink

    A shallow embedding of [lstchain/onsite.py].  The functions of that
    module talk to the file system through [pathlib]; the embedding keeps
    the file system as an explicit state (a finite map from canonical
    paths to nodes), runs the module's functions in a small monad that
    threads this state, the raised exception and a log of the system
    calls performed, and leaves the directory listing ([glob], [rglob])
    and the name parser of [lstchain.paths] as an interface. *)

From Stdlib Require Import ZArith String Ascii List OrderedTypeEx.
From stdpp Require Import base option list gmap strings sorting pretty.

Local Open Scope string_scope.
Local Open Scope list_scope.
Local Open Scope Z_scope.

(** ** Paths *)

(** A [pathlib] path: whether it is anchored at the root, and its
    components.  [Path(str)] drops empty and [.] components and keeps
    [..]; link targets are stored with the same type, as written. *)
Record Path := mkPath { absolute : bool; parts : list string }.

#[global] Instance Path_eq_dec : EqDecision Path.
Proof. solve_decision. Defined.

(** Splitting a string at [/]. *)
Fixpoint split_slash_go (acc : string) (s : string) : list string :=
  match s with
  | EmptyString => [String.rev acc]
  | String c s' =>
      if Ascii.eqb c "/"%char
      then String.rev acc :: split_slash_go EmptyString s'
      else split_slash_go (String c acc) s'
  end.

Definition split_slash (s : string) : list string := split_slash_go EmptyString s.

Definition is_dot (c : string) : bool := String.eqb c "" || String.eqb c ".".
Definition is_dotdot (c : string) : bool := String.eqb c "..".

(** [Path(s)]. *)
Definition Path_of_string (s : string) : Path :=
  {| absolute := match s with String c _ => Ascii.eqb c "/"%char | _ => false end;
     parts := List.filter (fun c => negb (is_dot c)) (split_slash s) |}.

(** [p / q] for a path [q]: an anchored right operand replaces the left one. *)
Definition joinpath (p q : Path) : Path :=
  if absolute q then q
  else {| absolute := absolute p; parts := parts p ++ parts q |}.

(** [p / s] for a string [s]. *)
Definition join (p : Path) (s : string) : Path := joinpath p (Path_of_string s).

Infix "//" := join (at level 40, left associativity).

(** [p.parent]. *)
Definition parent (p : Path) : Path :=
  {| absolute := absolute p; parts := removelast (parts p) |}.

Fixpoint join_with (sep : string) (l : list string) : string :=
  match l with
  | [] => ""
  | [x] => x
  | x :: l' => x +:+ sep +:+ join_with sep l'
  end.

(** [str(p)]. *)
Definition str (p : Path) : string :=
  if absolute p then "/" +:+ join_with "/" (parts p)
  else match parts p with [] => "." | _ => join_with "/" (parts p) end.

(** The list [pathlib] compares: the anchor, then the components. *)
Definition cparts (p : Path) : list string :=
  if absolute p then "/" :: parts p else parts p.

(** Python's [<=] on lists of strings: lexicographic, a proper prefix first. *)
Fixpoint lex_compare (l1 l2 : list string) : comparison :=
  match l1, l2 with
  | [], [] => Eq
  | [], _ :: _ => Lt
  | _ :: _, [] => Gt
  | x :: l1', y :: l2' =>
      match String.compare x y with
      | Eq => lex_compare l1' l2'
      | c => c
      end
  end.

Definition path_le (p q : Path) : Prop := lex_compare (cparts p) (cparts q) <> Gt.

#[global] Instance path_le_dec : RelDecision path_le.
Proof. intros p q. unfold path_le. apply _. Defined.

(** [sorted(l)] on paths. *)
Definition sorted (l : list Path) : list Path := merge_sort path_le l.

(** ** The file system *)

Inductive node :=
| Dir
| File
| Link (target : Path).

#[global] Instance node_eq_dec : EqDecision node.
Proof. solve_decision. Defined.

(** The state: the nodes by canonical path (the root [[]] is a directory
    and has no entry), the working directory, and the home directory
    that [~] or [~user] stands for. *)
Record World := mkWorld {
  nodes : gmap (list string) node;
  cwd : list string;
  homedir : string -> option Path
}.

Definition with_nodes (w : World) (m : gmap (list string) node) : World :=
  {| nodes := m; cwd := cwd w; homedir := homedir w |}.

(** The kernel gives up after this many symbolic links on one walk;
    the embedding uses the same bound for [realpath]. *)
Definition MAXSYMLINKS : nat := 40.

Definition start_of (w : World) (p : Path) : list string :=
  if absolute p then [] else cwd w.

(** [os.path.realpath(strict=False)]: components that do not exist are
    kept as they are written, [..] drops the last component of the
    path resolved so far.  [None] is a symbolic-link loop. *)
Fixpoint realpath_from (fuel : nat) (fs : gmap (list string) node)
    : list string -> list string -> option (list string) :=
  fix go (cur todo : list string) {struct todo} : option (list string) :=
    match todo with
    | [] => Some cur
    | c :: rest =>
        if is_dot c then go cur rest
        else if is_dotdot c then go (removelast cur) rest
        else match fs !! (cur ++ [c]) with
             | Some (Link t) =>
                 match fuel with
                 | O => None
                 | S f => realpath_from f fs (if absolute t then [] else cur) (parts t ++ rest)
                 end
             | _ => go (cur ++ [c]) rest
             end
    end.

(** [stat(2)]: every component but the last must be a directory (after
    following links), the last must exist.  Returns the canonical path
    reached and what is there. *)
Fixpoint stat_from (fuel : nat) (fs : gmap (list string) node)
    : list string -> list string -> option (list string * node) :=
  fix go (cur todo : list string) {struct todo} : option (list string * node) :=
    match todo with
    | [] => Some (cur, Dir)
    | c :: rest =>
        if is_dot c then go cur rest
        else if is_dotdot c then go (removelast cur) rest
        else match fs !! (cur ++ [c]) with
             | None => None
             | Some Dir => go (cur ++ [c]) rest
             | Some File => match rest with [] => Some (cur ++ [c], File) | _ => None end
             | Some (Link t) =>
                 match fuel with
                 | O => None
                 | S f => stat_from f fs (if absolute t then [] else cur) (parts t ++ rest)
                 end
             end
    end.

Definition realpath (w : World) (p : Path) : option (list string) :=
  realpath_from MAXSYMLINKS (nodes w) (start_of w p) (parts p).

Definition stat (w : World) (p : Path) : option (list string * node) :=
  stat_from MAXSYMLINKS (nodes w) (start_of w p) (parts p).

(** The directory entry a path names: the parent is walked like [stat]
    does, the last component is not followed. *)
Definition locate (w : World) (p : Path) : option (list string) :=
  match last (parts p) with
  | Some name =>
      if is_dot name || is_dotdot name then None
      else match stat_from MAXSYMLINKS (nodes w) (start_of w p) (removelast (parts p)) with
           | Some (q, Dir) => Some (q ++ [name])
           | _ => None
           end
  | None => None
  end.

(** ** Exceptions, system calls and the monad *)

(** The exception classes the module can end in.  [IOError] is Python's
    alias of [OSError]; [ParseError] stands for whatever
    [parse_calibration_name] raises on a name it does not accept. *)
Inductive exn_class :=
| ValueError
| IOError
| FileExistsError
| FileNotFoundError
| IsADirectoryError
| RuntimeError
| ParseError.

#[global] Instance exn_class_eq_dec : EqDecision exn_class.
Proof. solve_decision. Defined.

Record exn := mkExn { cls : exn_class; msg : string }.

#[global] Instance exn_eq_dec : EqDecision exn.
Proof. solve_decision. Defined.

Inductive result (A : Type) :=
| Return (a : A)
| Raise (e : exn).
Arguments Return {A} a.
Arguments Raise {A} e.

(** What a call asks of the file system. *)
Inductive event :=
| EvStat (p : Path)
| EvRealpath (p : Path)
| EvGlob (dir : Path) (pattern : string)
| EvRglob (dir : Path) (pattern : string)
| EvUnlink (p : Path)
| EvSymlink (p target : Path).

Definition is_mutation (e : event) : bool :=
  match e with
  | EvUnlink _ | EvSymlink _ _ => true
  | _ => false
  end.

Definition is_search (e : event) : bool :=
  match e with
  | EvGlob _ _ | EvRglob _ _ => true
  | _ => false
  end.

(** A computation: from the world before to the outcome, the world
    after and the system calls made, in order. *)
Definition M (A : Type) : Type := World -> result A * World * list event.

Definition ret {A} (a : A) : M A := fun w => (Return a, w, []).
Definition raise {A} (c : exn_class) (m : string) : M A :=
  fun w => (Raise (mkExn c m), w, []).
Definition bind {A B} (m : M A) (f : A -> M B) : M B :=
  fun w =>
    match m w with
    | (Return a, w1, l1) =>
        match f a w1 with
        | (r, w2, l2) => (r, w2, l1 ++ l2)
        end
    | (Raise e, w1, l1) => (Raise e, w1, l1)
    end.

#[global] Instance M_ret : MRet M := @ret.
#[global] Instance M_bind : MBind M := fun A B f m => bind m f.
#[global] Instance M_fmap : FMap M := fun A B f m => bind m (fun a => ret (f a)).

Definition outcome {A} (m : M A) (w : World) : result A := (m w).1.1.
Definition world_after {A} (m : M A) (w : World) : World := (m w).1.2.
Definition trace {A} (m : M A) (w : World) : list event := (m w).2.

(** ** [pathlib] primitives *)

(** [p.expanduser()]: only a relative path whose first component starts
    with [~] is touched. *)
Definition expanduser (p : Path) : M Path :=
  if absolute p then ret p
  else match parts p with
       | String "~" u :: tl =>
           fun w =>
             match homedir w (String "~" u) with
             | Some h => (Return (mkPath (absolute h) (parts h ++ tl)), w, [])
             | None => (Raise (mkExn RuntimeError "Could not determine home directory."), w, [])
             end
       | _ => ret p
       end.

(** [p.resolve()]. *)
Definition resolve (p : Path) : M Path :=
  fun w =>
    match realpath w p with
    | Some q => (Return (mkPath true q), w, [EvRealpath p])
    | None => (Raise (mkExn RuntimeError ("Symlink loop from " +:+ str p)), w, [EvRealpath p])
    end.

(** [p.exists()]: a missing component, a file used as a directory and a
    link loop all answer [False]. *)
Definition exists_ (p : Path) : M bool :=
  fun w => (Return (bool_decide (is_Some (stat w p))), w, [EvStat p]).

(** [p.unlink()]. *)
Definition unlink (p : Path) : M unit :=
  fun w =>
    match locate w p with
    | Some k =>
        match nodes w !! k with
        | Some Dir => (Raise (mkExn IsADirectoryError (str p)), w, [EvUnlink p])
        | Some _ => (Return tt, with_nodes w (delete k (nodes w)), [EvUnlink p])
        | None => (Raise (mkExn FileNotFoundError (str p)), w, [EvUnlink p])
        end
    | None => (Raise (mkExn FileNotFoundError (str p)), w, [EvUnlink p])
    end.

(** [p.symlink_to(target)]. *)
Definition symlink_to (p target : Path) : M unit :=
  fun w =>
    match locate w p with
    | Some k =>
        match nodes w !! k with
        | Some _ => (Raise (mkExn FileExistsError (str p)), w, [EvSymlink p target])
        | None => (Return tt, with_nodes w (<[k := Link target]> (nodes w)), [EvSymlink p target])
        end
    | None => (Raise (mkExn FileNotFoundError (str p)), w, [EvSymlink p target])
    end.

(** ** [create_pro_symlink] *)

Definition create_pro_symlink (output_dir : Path) : M unit :=
  output_dir ← expanduser output_dir;
  output_dir ← resolve output_dir;
  let pro_dir := parent output_dir // "pro" in
  (* remove previous pro link, if it points to an older version *)
  stale ← (e ← exists_ pro_dir;
           if e : bool
           then a ← resolve pro_dir;
                b ← resolve output_dir;
                mret (bool_decide (a <> b))
           else mret false);
  _ ← (if stale : bool then unlink pro_dir else mret tt);
  e ← exists_ pro_dir;
  if negb e then symlink_to pro_dir output_dir else mret tt.

(** ** What the module takes from its environment *)

(** [Path.glob], [Path.rglob] and [repr] of a string are Python's; they
    are an interface here, so everything proved below holds whatever a
    listing answers. *)
Class Pathlib := {
  glob : World -> Path -> string -> list Path;
  rglob : World -> Path -> string -> list Path;
  repr_str : string -> string
}.

(** What [parse_calibration_name] returns. *)
Module Run.
Record t := make { run : Z; subrun : Z }.
End Run.

(** [lstchain.paths.parse_calibration_name] is imported by the module
    and is not part of the sources at hand: it is an interface too.
    [None] stands for the call raising on a name it does not accept. *)
Class CalibrationNames := {
  parse_calibration_name : Path -> option Run.t
}.

(** ** Formatting *)

Definition nl : string := String (ascii_of_nat 10) EmptyString.

Fixpoint zeros (n : nat) : string :=
  match n with
  | O => ""
  | S n' => String "0" (zeros n')
  end.

(** [f'{n:0<width>d}']: zero padding between the sign and the digits. *)
Definition fmt_0d (width : nat) (n : Z) : string :=
  let digits := pretty (Z.abs n) in
  let sign := if n <? 0 then "-" else "" in
  sign +:+ zeros (width - String.length sign - String.length digits) +:+ digits.

(** [repr] of a [PosixPath] and of a list of them. *)
Definition repr_path `{Pathlib} (p : Path) : string :=
  "PosixPath(" +:+ repr_str (str p) +:+ ")".

Definition repr_list `{Pathlib} (l : list Path) : string :=
  "[" +:+ join_with ", " (repr_path <$> l) +:+ "]".

(** ** The lookups *)

Section Lookups.
Context `{Pathlib, CalibrationNames}.

Definition glob_ (dir : Path) (pattern : string) : M (list Path) :=
  fun w => (Return (glob w dir pattern), w, [EvGlob dir pattern]).

Definition rglob_ (dir : Path) (pattern : string) : M (list Path) :=
  fun w => (Return (rglob w dir pattern), w, [EvRglob dir pattern]).

Definition parse_ (p : Path) : M Run.t :=
  match parse_calibration_name p with
  | Some r => mret r
  | None => raise ParseError (str p)
  end.

(** Find the given subrun R0 file (i.e. globbing for the date part). *)
Definition find_r0_subrun (run sub_run : Z) (r0_dir : Path) : M Path :=
  file_list ← sorted <$> rglob_ r0_dir
    ("LST-1.1.Run" +:+ fmt_0d 5 run +:+ "." +:+ fmt_0d 4 sub_run +:+ "*.fits.fz");
  match file_list with
  | [] => raise IOError ("Run " +:+ pretty run +:+ " not found" +:+ nl)
  | first :: _ => mret first
  end.

Definition find_pedestal_file (pro : string) (pedestal_run : option Z)
    (date : option string) (base_dir : Path) : M Path :=
  (* pedestal base dir *)
  let ped_dir := base_dir // "monitoring/PixelCalibration/LevelA/drs4_baseline" in
  match pedestal_run, date with
  | None, None => raise ValueError "Must give at least `date` or `run`"
  | Some pedestal_run, _ =>
      (* search a specific pedestal run *)
      file_list ← sorted <$> rglob_ ped_dir
        (pro +:+ "/drs4_pedestal.Run" +:+ fmt_0d 5 pedestal_run +:+ ".0000.h5");
      match file_list with
      | [] => raise IOError
                ("Pedestal file from run " +:+ pretty pedestal_run +:+ " not found" +:+ nl)
      | first :: _ => resolve first
      end
  | None, Some date =>
      (* search for a unique pedestal file from the same date *)
      file_list ← sorted <$> glob_ (ped_dir // date // pro) "drs4_pedestal*.0000.h5";
      match file_list with
      | [] => raise IOError ("No pedestal file found for date " +:+ date)
      | [first] => resolve first
      | _ => raise IOError
               ("Too many pedestal files found for date " +:+ date +:+ ": "
                +:+ repr_list file_list +:+ ", choose one run" +:+ nl)
      end
  end.

Definition find_run_summary (date : string) (base_dir : Path) : M Path :=
  let run_summary_path :=
    base_dir // ("monitoring/RunSummary/RunSummary_" +:+ date +:+ ".ecsv") in
  e ← exists_ run_summary_path;
  if negb e
  then raise IOError ("Night summary file " +:+ str run_summary_path +:+ " does not exist" +:+ nl)
  else mret run_summary_path.

(** The loop of [find_time_calibration_file]: [time_file] is the
    answer so far, the first larger run ends the loop. *)
Fixpoint last_time_run_before (run : Z) (file_list : list Path)
    (time_file : option Path) : M (option Path) :=
  match file_list with
  | [] => mret time_file
  | path :: rest =>
      run_in_list ← parse_ path;
      if Run.run run_in_list <=? run
      then time_file ← resolve path;
           last_time_run_before run rest (Some time_file)
      else mret time_file
  end.

(** Find a time calibration file for given run. *)
Definition find_time_calibration_file (pro : string) (run : Z)
    (time_run : option Z) (base_dir : Path) : M Path :=
  let time_dir :=
    base_dir // "monitoring/PixelCalibration/LevelA/drs4_time_sampling_from_FF" in
  match time_run with
  | None =>
      (* search the last time run before or equal to the calibration run *)
      file_list ← sorted <$> rglob_ time_dir ("*/" +:+ pro +:+ "/time_calibration.Run*.0000.h5");
      match file_list with
      | [] => raise IOError
                ("No time calibration file found in the data tree for prod " +:+ pro +:+ nl)
      | _ =>
          time_file ← last_time_run_before run file_list None;
          match time_file with
          | None => raise IOError
                      ("No time calibration file found before run " +:+ pretty run
                       +:+ " for prod " +:+ pro +:+ nl)
          | Some time_file => mret time_file
          end
      end
  | Some time_run =>
      (* if given, search a specific time file *)
      file_list ← sorted <$> rglob_ time_dir
        ("*/" +:+ pro +:+ "/time_calibration.Run" +:+ fmt_0d 5 time_run +:+ ".0000.h5");
      match file_list with
      | [] => raise IOError
                ("Time calibration file from run " +:+ pretty time_run +:+ " not found" +:+ nl)
      | first :: _ => resolve first
      end
  end.
End Lookups.

(** ** How a caller tells the failures apart *)

Inductive failure :=
| InvalidArgument
| NotFound
| AmbiguousMatch.

#[global] Instance failure_eq_dec : EqDecision failure.
Proof. solve_decision. Defined.

(** The [ValueError] is the missing argument; among the [IOError]s the
    message of the ambiguous case starts with [Too many], no other
    message of the module does. *)
Definition failure_of (e : exn) : option failure :=
  match cls e with
  | ValueError => Some InvalidArgument
  | IOError =>
      if String.prefix "Too many" (msg e) then Some AmbiguousMatch else Some NotFound
  | _ => None
  end.

(** ** A listing and a name parser to run the lookups on *)

(** [fnmatch] with [*] as the only wildcard. *)
Fixpoint fnmatch (pat name : string) : bool :=
  match pat with
  | EmptyString => match name with EmptyString => true | _ => false end
  | String c pat' =>
      if Ascii.eqb c "*"%char
      then (fix star (name : string) : bool :=
              fnmatch pat' name
              || match name with
                 | EmptyString => false
                 | String _ name' => star name'
                 end) name
      else match name with
           | String d name' => Ascii.eqb c d && fnmatch pat' name'
           | EmptyString => false
           end
  end.

Fixpoint strip_prefix (pre l : list string) : option (list string) :=
  match pre, l with
  | [], _ => Some l
  | x :: pre', y :: l' => if String.eqb x y then strip_prefix pre' l' else None
  | _ :: _, [] => None
  end.

Fixpoint match_parts (pats names : list string) : bool :=
  match pats, names with
  | [], [] => true
  | p :: pats', n :: names' => fnmatch p n && match_parts pats' names'
  | _, _ => false
  end.

(** A listing that reads the node map as it is (links are not
    followed): the entries below [dir] whose components match the
    pattern's, for [rglob] at any depth. *)
Definition plain_glob (recursive : bool) (w : World) (dir : Path) (pattern : string)
    : list Path :=
  let pats := parts (Path_of_string pattern) in
  let d := start_of w dir ++ parts dir in
  omap (fun kv : list string * node =>
          match strip_prefix d kv.1 with
          | Some rel =>
              let tail := if recursive
                          then drop (length rel - length pats) rel
                          else rel in
              if match_parts pats tail then Some (joinpath dir (mkPath false rel)) else None
          | None => None
          end)
       (map_to_list (nodes w)).

Definition plain_pathlib : Pathlib :=
  {| glob := plain_glob false;
     rglob := plain_glob true;
     repr_str := fun s => "'" +:+ s +:+ "'" |}.

Definition digit_of (c : ascii) : option Z :=
  let n := Z.of_nat (nat_of_ascii c) in
  if (48 <=? n) && (n <=? 57) then Some (n - 48) else None.

Fixpoint digits_go (acc : Z) (s : string) : option Z :=
  match s with
  | EmptyString => Some acc
  | String c s' =>
      match digit_of c with
      | Some d => digits_go (10 * acc + d) s'
      | None => None
      end
  end.

Definition digits (s : string) : option Z :=
  match s with
  | EmptyString => None
  | _ => digits_go 0 s
  end.

Fixpoint split_dot_go (acc : string) (s : string) : list string :=
  match s with
  | EmptyString => [String.rev acc]
  | String c s' =>
      if Ascii.eqb c "."%char
      then String.rev acc :: split_dot_go EmptyString s'
      else split_dot_go (String c acc) s'
  end.

(** Modelled from the spec: [parse_calibration_name] of
    [lstchain/paths.py], which is not among the sources.  The spec gives
    the names as [<kind>.Run{run:05d}.{subrun:04d}.h5] and has the run
    number parsed out of the file name. *)
Definition parse_run_name (p : Path) : option Run.t :=
  match last (parts p) with
  | Some name =>
      match rev (split_dot_go EmptyString name) with
      | "h5" :: sub :: String "R" (String "u" (String "n" r)) :: _ :: _ =>
          match digits r, digits sub with
          | Some r, Some s => Some (Run.make r s)
          | _, _ => None
          end
      | _ => None
      end
  | None => None
  end.

Definition spec_names : CalibrationNames :=
  {| parse_calibration_name := parse_run_name |}.

(** ** Existing directories *)

(** [q], read from [cur] on, is a chain of real directories: no link,
    no [.] or [..], every component a [Dir] entry. *)
Fixpoint dirs_from (fs : gmap (list string) node) (cur q : list string) : Prop :=
  match q with
  | [] => True
  | c :: q' =>
      is_dot c = false /\ is_dotdot c = false /\
      fs !! (cur ++ [c]) = Some Dir /\ dirs_from fs (cur ++ [c]) q'
  end.

Definition canonical (fs : gmap (list string) node) (q : list string) : Prop :=
  dirs_from fs [] q.

(** The working directory of the process exists. *)
Definition wf_world (w : World) : Prop := canonical (nodes w) (cwd w).

(** What is at a canonical path; the root is a directory. *)
Definition node_at (fs : gmap (list string) node) (q : list string) : option node :=
  match q with
  | [] => Some Dir
  | _ => fs !! q
  end.

(** The directory that [Path(p).expanduser()] names, if it names one. *)
Definition dir_of (w : World) (p : Path) : option (list string) :=
  match outcome (expanduser p) w with
  | Return p' =>
      match stat w p' with
      | Some (D, Dir) => Some D
      | _ => None
      end
  | Raise _ => None
  end.

(** The [pro] path beside the directory [D], as [create_pro_symlink]
    builds it. *)
Definition pro_beside (D : list string) : Path := parent (mkPath true D) // "pro".


Definition mutations (l : list event) : list event := List.filter is_mutation l.
Definition searches (l : list event) : list event := List.filter is_search l.

(** ** Reading the results of a lookup *)

(** The run number the parser gives for a candidate ([0] when it gives
    none; the statements below ask that it gives one). *)
Definition run_of `{CalibrationNames} (p : Path) : Z :=
  from_option Run.run 0 (parse_calibration_name p).

(** Candidates in a list are in ascending run order. *)
Definition runs_ascending `{CalibrationNames} (l : list Path) : Prop :=
  Sorted (fun p q => run_of p <= run_of q) l.

(** What [p.resolve()] returns when it returns. *)
Definition resolved (w : World) (p : Path) : Path :=
  mkPath true (default [] (realpath w p)).

(** [s] occurs in [t]. *)
Definition occurs_in (s t : string) : Prop :=
  exists a b, t = a +:+ s +:+ b.

(** The directories the lookups search. *)
Definition ped_dir_of (base_dir : Path) : Path :=
  base_dir // "monitoring/PixelCalibration/LevelA/drs4_baseline".

Definition time_dir_of (base_dir : Path) : Path :=
  base_dir // "monitoring/PixelCalibration/LevelA/drs4_time_sampling_from_FF".

(** ** The lookups as queries *)

Inductive query :=
| R0Subrun (run sub_run : Z) (r0_dir : Path)
| PedestalFile (pro : string) (pedestal_run : option Z) (date : option string)
    (base_dir : Path)
| RunSummary (date : string) (base_dir : Path)
| TimeCalibrationFile (pro : string) (run : Z) (time_run : option Z) (base_dir : Path).

Section Queries.
Context `{Pathlib, CalibrationNames}.

Definition lookup (q : query) : M Path :=
  match q with
  | R0Subrun run sub_run r0_dir => find_r0_subrun run sub_run r0_dir
  | PedestalFile pro pedestal_run date base_dir =>
      find_pedestal_file pro pedestal_run date base_dir
  | RunSummary date base_dir => find_run_summary date base_dir
  | TimeCalibrationFile pro run time_run base_dir =>
      find_time_calibration_file pro run time_run base_dir
  end.

(** More than one file answers a query that wants exactly one: only
    the pedestal lookup by date wants that. *)
Definition ambiguous (w : World) (q : query) : Prop :=
  match q with
  | PedestalFile pro None (Some date) base_dir =>
      (2 <= length (glob w (ped_dir_of base_dir // date // pro) "drs4_pedestal*.0000.h5"))%nat
  | _ => False
  end.

(** Nothing answers the query.  For the time calibration of a run
    without [time_run] that is: no file at all, or the first file in
    sorted order is already above the run. *)
Definition no_artifact (w : World) (q : query) : Prop :=
  match q with
  | R0Subrun run sub_run r0_dir =>
      rglob w r0_dir
        ("LST-1.1.Run" +:+ fmt_0d 5 run +:+ "." +:+ fmt_0d 4 sub_run +:+ "*.fits.fz") = []
  | PedestalFile pro (Some pedestal_run) _ base_dir =>
      rglob w (ped_dir_of base_dir)
        (pro +:+ "/drs4_pedestal.Run" +:+ fmt_0d 5 pedestal_run +:+ ".0000.h5") = []
  | PedestalFile pro None (Some date) base_dir =>
      glob w (ped_dir_of base_dir // date // pro) "drs4_pedestal*.0000.h5" = []
  | PedestalFile pro None None base_dir => False
  | RunSummary date base_dir =>
      stat w (base_dir // ("monitoring/RunSummary/RunSummary_" +:+ date +:+ ".ecsv")) = None
  | TimeCalibrationFile pro run None base_dir =>
      match sorted (rglob w (time_dir_of base_dir)
                      ("*/" +:+ pro +:+ "/time_calibration.Run*.0000.h5")) with
      | [] => True
      | first :: _ => run < run_of first
      end
  | TimeCalibrationFile pro run (Some time_run) base_dir =>
      rglob w (time_dir_of base_dir)
        ("*/" +:+ pro +:+ "/time_calibration.Run" +:+ fmt_0d 5 time_run +:+ ".0000.h5") = []
  end.
End Queries.

(** ** Worlds to run the module on *)

Definition world_of (l : list (list string * node)) : World :=
  {| nodes := list_to_map l; cwd := []; homedir := fun _ => None |}.

(** Every prefix of a path, as directories. *)
Fixpoint dirs_below (pre : list string) (l : list string) : list (list string * node) :=
  match l with
  | [] => []
  | c :: l' => (pre ++ [c], Dir) :: dirs_below (pre ++ [c]) l'
  end.

(** [/data] with two versioned outputs, and what [pro] can be there. *)
Definition site (pro : list (list string * node)) : World :=
  world_of ([(["data"], Dir); (["data"; "v1"], Dir); (["data"; "v2"], Dir)] ++ pro).

Definition dir_v1 : Path := mkPath true ["data"; "v1"].
Definition dir_v2 : Path := mkPath true ["data"; "v2"].

(** No [pro] yet. *)
Definition site_fresh : World := site [].

(** [pro -> v1/]: relative, with a trailing slash. *)
Definition site_relative : World :=
  site [(["data"; "pro"], Link (mkPath false ["v1"; ""]))].

(** [pro -> current], [current -> ./v2/../v1]: a chain with dots. *)
Definition site_chain : World :=
  site [(["data"; "pro"], Link (mkPath false ["current"]));
        (["data"; "current"], Link (mkPath false ["."; "v2"; ".."; "v1"]))].

(** [pro -> v0], and there is no [v0]. *)
Definition site_dangling : World :=
  site [(["data"; "pro"], Link (mkPath false ["v0"]))].

(** The calibration tree below [/data]. *)
Definition base : Path := mkPath true ["data"].

Definition level_a : list string :=
  ["data"; "monitoring"; "PixelCalibration"; "LevelA"].

Definition time_tree : list string := level_a ++ ["drs4_time_sampling_from_FF"].
Definition ped_tree : list string := level_a ++ ["drs4_baseline"].

Definition calibration_dirs : list (list string * node) :=
  dirs_below [] time_tree ++ [(ped_tree, Dir)].

(** One production directory of one date, with its files. *)
Definition production (tree : list string) (date pro : string) (files : list string)
    : list (list string * node) :=
  (tree ++ [date], Dir) :: (tree ++ [date; pro], Dir)
  :: ((fun f => (tree ++ [date; pro; f], File)) <$> files).

(** Time calibrations of runs 100, 105 and 110 for [v1]. *)
Definition tree_three_runs : World :=
  world_of (calibration_dirs
            ++ production time_tree "20200101" "v1"
                 ["time_calibration.Run00100.0000.h5"; "time_calibration.Run00105.0000.h5"]
            ++ production time_tree "20200102" "v1"
                 ["time_calibration.Run00110.0000.h5"]).

(** The later date holds the smaller run. *)
Definition tree_dates_against_runs : World :=
  world_of (calibration_dirs
            ++ production time_tree "20200101" "v1" ["time_calibration.Run00110.0000.h5"]
            ++ production time_tree "20200102" "v1" ["time_calibration.Run00105.0000.h5"]).

(** Pedestals: run 7 under two dates, runs 7 and 8 on the first date,
    run 9 alone on the third. *)
Definition tree_pedestals : World :=
  world_of (calibration_dirs
            ++ production ped_tree "20200101" "v1"
                 ["drs4_pedestal.Run00007.0000.h5"; "drs4_pedestal.Run00008.0000.h5"]
            ++ production ped_tree "20200102" "v1" ["drs4_pedestal.Run00007.0000.h5"]
            ++ production ped_tree "20200103" "v1" ["drs4_pedestal.Run00009.0000.h5"]).

Definition time_file (date pro name : string) : Path :=
  mkPath true (time_tree ++ [date; pro; name]).

Definition ped_file (date pro name : string) : Path :=
  mkPath true (ped_tree ++ [date; pro; name]).

(** [pro -> v1], and [v1/next -> /data/v2]: the path [/data/pro/next]
    names [v2] as long as [pro] points at [v1]. *)
Definition site_next : World :=
  site [(["data"; "pro"], Link (mkPath false ["v1"]));
        (["data"; "v1"; "next"], Link (mkPath true ["data"; "v2"]))].

Definition dir_pro_next : Path := mkPath true ["data"; "pro"; "next"].

(** ** More to read the lookups with *)

(** The candidates the loop of [find_time_calibration_file] keeps: the
    longest prefix of the list whose runs are not above [run]. *)
Fixpoint runs_before `{CalibrationNames} (run : Z) (l : list Path) : list Path :=
  match l with
  | [] => []
  | p :: l' => if run_of p <=? run then p :: runs_before run l' else []
  end.

(** ** More worlds *)

(** [pro] is a directory of its own. *)
Definition site_directory : World := site [(["data"; "pro"], Dir)].

(** [pro -> v2]. *)
Definition site_stale : World := site [(["data"; "pro"], Link (mkPath false ["v2"]))].

(** A name between the runs that the parser does not accept. *)
Definition tree_bad_name : World :=
  world_of (calibration_dirs
            ++ production time_tree "20200101" "v1"
                 ["time_calibration.Run00100.0000.h5"; "time_calibration.RunXX.0000.h5"]
            ++ production time_tree "20200102" "v1"
                 ["time_calibration.Run00110.0000.h5"]).

(** Raw data of two dates. *)
Definition r0_dir : Path := mkPath true ["data"; "R0"].

Definition tree_r0 : World :=
  world_of (dirs_below [] ["data"; "R0"]
            ++ [(["data"; "R0"; "20200101"], Dir);
                (["data"; "R0"; "20200101"; "LST-1.1.Run00100.0000.fits.fz"], File);
                (["data"; "R0"; "20200101"; "LST-1.1.Run00100.0001.fits.fz"], File);
                (["data"; "R0"; "20200102"], Dir);
                (["data"; "R0"; "20200102"; "LST-1.1.Run00100.0000_copy.fits.fz"], File)]).

(** * Walking the file system *)

Section Walks.
Variable fs : gmap (list string) node.

Lemma stat_from_nil fuel cur : stat_from fuel fs cur [] = Some (cur, Dir).
Proof. destruct fuel; reflexivity. Qed.

Lemma stat_from_cons fuel cur c rest :
  stat_from fuel fs cur (c :: rest) =
    if is_dot c then stat_from fuel fs cur rest
    else if is_dotdot c then stat_from fuel fs (removelast cur) rest
    else match fs !! (cur ++ [c]) with
         | None => None
         | Some Dir => stat_from fuel fs (cur ++ [c]) rest
         | Some File => match rest with [] => Some (cur ++ [c], File) | _ => None end
         | Some (Link t) =>
             match fuel with
             | O => None
             | S f => stat_from f fs (if absolute t then [] else cur) (parts t ++ rest)
             end
         end.
Proof. destruct fuel; reflexivity. Qed.

Lemma realpath_from_nil fuel cur : realpath_from fuel fs cur [] = Some cur.
Proof. destruct fuel; reflexivity. Qed.

Lemma realpath_from_cons fuel cur c rest :
  realpath_from fuel fs cur (c :: rest) =
    if is_dot c then realpath_from fuel fs cur rest
    else if is_dotdot c then realpath_from fuel fs (removelast cur) rest
    else match fs !! (cur ++ [c]) with
         | Some (Link t) =>
             match fuel with
             | O => None
             | S f => realpath_from f fs (if absolute t then [] else cur) (parts t ++ rest)
             end
         | _ => realpath_from fuel fs (cur ++ [c]) rest
         end.
Proof. destruct fuel; reflexivity. Qed.

(** A chain of real directories is walked component by component. *)
Lemma stat_from_dirs fuel q : forall cur rest,
  dirs_from fs cur q ->
  stat_from fuel fs cur (q ++ rest) = stat_from fuel fs (cur ++ q) rest.
Proof.
  induction q as [|c q IH]; intros cur rest Hq; simpl.
  - by rewrite app_nil_r.
  - destruct Hq as (Hd & Hdd & Hc & Hq).
    rewrite stat_from_cons, Hd, Hdd, Hc, (IH _ _ Hq).
    by rewrite <- app_assoc.
Qed.

Lemma realpath_from_dirs fuel q : forall cur rest,
  dirs_from fs cur q ->
  realpath_from fuel fs cur (q ++ rest) = realpath_from fuel fs (cur ++ q) rest.
Proof.
  induction q as [|c q IH]; intros cur rest Hq; simpl.
  - by rewrite app_nil_r.
  - destruct Hq as (Hd & Hdd & Hc & Hq).
    rewrite realpath_from_cons, Hd, Hdd, Hc, (IH _ _ Hq).
    by rewrite <- app_assoc.
Qed.

Lemma dirs_from_app a : forall cur b,
  dirs_from fs cur (a ++ b) <-> dirs_from fs cur a /\ dirs_from fs (cur ++ a) b.
Proof.
  induction a as [|c a IH]; intros cur b; simpl.
  - rewrite app_nil_r. tauto.
  - rewrite IH, <- app_assoc. simpl. tauto.
Qed.

Lemma canonical_snoc q c :
  canonical fs q -> is_dot c = false -> is_dotdot c = false ->
  fs !! (q ++ [c]) = Some Dir -> canonical fs (q ++ [c]).
Proof.
  intros Hq ? ? ?. apply dirs_from_app. split; [exact Hq|]. simpl. auto.
Qed.

Lemma canonical_removelast q : canonical fs q -> canonical fs (removelast q).
Proof.
  destruct (decide (q = [])) as [->|Hne]; [done|].
  rewrite (app_removelast_last "" Hne) at 1.
  intros Hq. by apply dirs_from_app in Hq as [Hq _].
Qed.

Lemma canonical_node_at q : canonical fs q -> node_at fs q = Some Dir.
Proof.
  destruct (decide (q = [])) as [->|Hne]; [done|].
  rewrite (app_removelast_last "" Hne) at 1.
  intros Hq. apply dirs_from_app in Hq as [_ Hq]. simpl in Hq.
  destruct Hq as (_ & _ & Hq & _).
  rewrite <- (app_removelast_last "" Hne) in Hq.
  destruct q; [done|exact Hq].
Qed.

(** Where [stat] arrives is a real place, and a directory it arrives
    at is a chain of real directories. *)
Lemma stat_from_sound fuel : forall todo cur q n,
  canonical fs cur ->
  stat_from fuel fs cur todo = Some (q, n) ->
  node_at fs q = Some n /\ (n = Dir -> canonical fs q).
Proof.
  induction fuel as [|fuel IHf];
    (induction todo as [|c rest IH]; intros cur q n Hcur;
     [ rewrite stat_from_nil; intros [= <- <-];
       split; [by apply canonical_node_at|done]
     | rewrite stat_from_cons;
       destruct (is_dot c) eqn:Hd; [by apply IH|];
       destruct (is_dotdot c) eqn:Hdd; [apply IH; by apply canonical_removelast|];
       destruct (fs !! (cur ++ [c])) as [[| |t]|] eqn:Hc; try done;
       try (apply IH; by apply canonical_snoc);
       try (destruct rest; [|done]; intros [= <- <-]; split; [|done];
            unfold node_at; destruct cur; simpl in *; exact Hc) ]).
  apply IHf. by destruct (absolute t).
Qed.

(** What [stat] reaches, [realpath] returns. *)
Lemma stat_from_realpath fuel : forall todo cur q n,
  stat_from fuel fs cur todo = Some (q, n) ->
  realpath_from fuel fs cur todo = Some q.
Proof.
  induction fuel as [|fuel IHf];
    (induction todo as [|c rest IH]; intros cur q n;
     [ rewrite stat_from_nil, realpath_from_nil; by intros [= <- <-]
     | rewrite stat_from_cons, realpath_from_cons;
       destruct (is_dot c) eqn:Hd; [by apply IH|];
       destruct (is_dotdot c) eqn:Hdd; [by apply IH|];
       destruct (fs !! (cur ++ [c])) as [[| |t]|] eqn:Hc; try done;
       try (by apply IH);
       try (destruct rest; [|done]; intros [= <- <-]; by rewrite realpath_from_nil) ]).
  apply IHf.
Qed.

(** A canonical path is its own resolution. *)
Lemma stat_from_canonical fuel q :
  canonical fs q -> stat_from fuel fs [] q = Some (q, Dir).
Proof.
  intros Hq. rewrite <- (app_nil_r q) at 1.
  rewrite (stat_from_dirs _ _ _ _ Hq). by rewrite stat_from_nil.
Qed.

Lemma realpath_from_canonical fuel q :
  canonical fs q -> realpath_from fuel fs [] q = Some q.
Proof.
  intros Hq. eapply stat_from_realpath. by apply stat_from_canonical.
Qed.
End Walks.

(** Directories that stay make canonical paths stay. *)
Lemma dirs_from_mono (fs fs' : gmap (list string) node) q : forall cur,
  (forall k, fs !! k = Some Dir -> fs' !! k = Some Dir) ->
  dirs_from fs cur q -> dirs_from fs' cur q.
Proof.
  induction q as [|c q IH]; intros cur Hk; simpl; [done|].
  intros (? & ? & ? & ?). repeat split; auto.
Qed.

(** * [create_pro_symlink], case by case *)

Lemma expanduser_pure p w : exists r, expanduser p w = (r, w, []).
Proof.
  unfold expanduser. destruct (absolute p); [by eexists|].
  destruct (parts p) as [|[|a u] tl]; try by eexists.
  destruct a as [[] [] [] [] [] [] [] []]; try by eexists.
  destruct (homedir w _); by eexists.
Qed.

Lemma dir_of_Some w p D :
  dir_of w p = Some D ->
  exists p', expanduser p w = (Return p', w, []) /\ stat w p' = Some (D, Dir).
Proof.
  unfold dir_of, outcome. destruct (expanduser_pure p w) as [r ->]. simpl.
  destruct r as [p'|]; [|done].
  destruct (stat w p') as [[q [| |]]|] eqn:Hs; try done.
  intros [= ->]. eauto.
Qed.

Lemma pro_beside_eq D : pro_beside D = mkPath true (removelast D ++ ["pro"]).
Proof. reflexivity. Qed.

Lemma stat_sound w p q n :
  wf_world w -> stat w p = Some (q, n) ->
  node_at (nodes w) q = Some n /\ (n = Dir -> canonical (nodes w) q).
Proof.
  intros Hw. unfold stat. apply stat_from_sound.
  unfold start_of. by destruct (absolute p).
Qed.

Lemma stat_realpath w p q n : stat w p = Some (q, n) -> realpath w p = Some q.
Proof. apply stat_from_realpath. Qed.

Lemma locate_pro w P :
  canonical (nodes w) P ->
  locate w (mkPath true (P ++ ["pro"])) = Some (P ++ ["pro"]).
Proof.
  intros HP. unfold locate, start_of. cbn [parts absolute].
  rewrite last_snoc. cbn [is_dot is_dotdot String.eqb Ascii.eqb Bool.eqb orb].
  rewrite removelast_last.
  by rewrite stat_from_canonical.
Qed.

Lemma stat_pro w P :
  canonical (nodes w) P ->
  stat w (mkPath true (P ++ ["pro"])) =
    match nodes w !! (P ++ ["pro"]) with
    | None => None
    | Some Dir => Some (P ++ ["pro"], Dir)
    | Some File => Some (P ++ ["pro"], File)
    | Some (Link t) =>
        stat_from (pred MAXSYMLINKS) (nodes w) (if absolute t then [] else P) (parts t ++ [])
    end.
Proof.
  intros HP. unfold stat, start_of. cbn [parts absolute].
  rewrite (stat_from_dirs _ _ _ _ _ HP). rewrite app_nil_l.
  rewrite stat_from_cons. cbn [is_dot is_dotdot String.eqb Ascii.eqb Bool.eqb orb].
  unfold MAXSYMLINKS at 2. cbn [pred].
  by destruct (nodes w !! (P ++ ["pro"])) as [[| |t]|].
Qed.

Lemma canonical_delete (fs : gmap (list string) node) K q :
  fs !! K <> Some Dir -> canonical fs q -> canonical (delete K fs) q.
Proof.
  intros HK. apply dirs_from_mono. intros k Hk.
  rewrite lookup_delete_ne; [done|congruence].
Qed.

Lemma canonical_insert_link (fs : gmap (list string) node) K t q :
  fs !! K <> Some Dir -> canonical fs q -> canonical (<[K := Link t]> fs) q.
Proof.
  intros HK. apply dirs_from_mono. intros k Hk.
  rewrite lookup_insert_ne; [done|congruence].
Qed.

Lemma create_pro_symlink_unfold w dirA D :
  wf_world w -> dir_of w dirA = Some D ->
  exists p',
  let pro := pro_beside D in
  let out := mkPath true D in
  let K := removelast D ++ ["pro"] in
  create_pro_symlink dirA w =
    match stat w pro with
    | Some (q, _) =>
        if decide (q = D)
        then (Return tt, w,
              [EvRealpath p'; EvStat pro; EvRealpath pro; EvRealpath out; EvStat pro])
        else match nodes w !! K with
             | Some Dir =>
                 (Raise (mkExn IsADirectoryError (str pro)), w,
                  [EvRealpath p'; EvStat pro; EvRealpath pro; EvRealpath out; EvUnlink pro])
             | Some _ =>
                 (Return tt, with_nodes w (<[K := Link out]> (delete K (nodes w))),
                  [EvRealpath p'; EvStat pro; EvRealpath pro; EvRealpath out; EvUnlink pro;
                   EvStat pro; EvSymlink pro out])
             | None =>
                 (Raise (mkExn FileNotFoundError (str pro)), w,
                  [EvRealpath p'; EvStat pro; EvRealpath pro; EvRealpath out; EvUnlink pro])
             end
    | None =>
        match nodes w !! K with
        | Some _ =>
            (Raise (mkExn FileExistsError (str pro)), w,
             [EvRealpath p'; EvStat pro; EvStat pro; EvSymlink pro out])
        | None =>
            (Return tt, with_nodes w (<[K := Link out]> (nodes w)),
             [EvRealpath p'; EvStat pro; EvStat pro; EvSymlink pro out])
        end
    end.
Proof.
  intros Hw Hd. destruct (dir_of_Some _ _ _ Hd) as (p' & Hexp & Hst).
  exists p'. intros pro out K. subst pro K. rewrite !pro_beside_eq.
  set (P := removelast D).
  destruct (stat_sound _ _ _ _ Hw Hst) as [HD Hcan]. specialize (Hcan eq_refl).
  pose proof (canonical_removelast _ _ Hcan) as HP. fold P in HP.
  pose proof (stat_realpath _ _ _ _ Hst) as Hrp.
  assert (Hout : realpath w out = Some D) by (by apply realpath_from_canonical).
  unfold create_pro_symlink, mbind, M_bind, bind.
  rewrite Hexp. unfold resolve at 1. rewrite Hrp.
  change (parent (mkPath true D) // "pro") with (mkPath true (P ++ ["pro"])).
  fold out. unfold exists_ at 1.
  destruct (stat w (mkPath true (P ++ ["pro"]))) as [[q n]|] eqn:Hpro.
  - rewrite bool_decide_eq_true_2 by eauto.
    unfold resolve. rewrite (stat_realpath _ _ _ _ Hpro), Hout. simpl.
    destruct (decide (q = D)) as [->|Hne].
    + rewrite bool_decide_eq_false_2 by (intros ?; congruence). simpl.
      unfold exists_. rewrite Hpro. rewrite bool_decide_eq_true_2 by eauto. done.
    + rewrite bool_decide_eq_true_2 by congruence. simpl.
      unfold unlink. rewrite (locate_pro _ _ HP).
      destruct (nodes w !! (P ++ ["pro"])) as [[| |t]|] eqn:HK; try done.
      * unfold exists_.
        rewrite stat_pro by (apply canonical_delete; [congruence|done]).
        simpl. rewrite lookup_delete_eq. simpl.
        unfold symlink_to.
        rewrite locate_pro by (apply canonical_delete; [congruence|done]).
        simpl. by rewrite lookup_delete_eq.
      * unfold exists_.
        rewrite stat_pro by (apply canonical_delete; [congruence|done]).
        simpl. rewrite lookup_delete_eq. simpl.
        unfold symlink_to.
        rewrite locate_pro by (apply canonical_delete; [congruence|done]).
        simpl. by rewrite lookup_delete_eq.
  - rewrite bool_decide_eq_false_2 by (intros [? ?]; congruence). simpl.
    unfold exists_. rewrite Hpro.
    rewrite bool_decide_eq_false_2 by (intros [? ?]; congruence). simpl.
    unfold symlink_to. rewrite (locate_pro _ _ HP).
    by destruct (nodes w !! (P ++ ["pro"])).
Qed.

Lemma stat_pro_link w D :
  canonical (nodes w) D ->
  nodes w !! (removelast D ++ ["pro"]) = Some (Link (mkPath true D)) ->
  stat w (pro_beside D) = Some (D, Dir).
Proof.
  intros HD HK. rewrite pro_beside_eq, stat_pro by (by apply canonical_removelast).
  rewrite HK. cbn [absolute parts]. rewrite app_nil_r.
  by apply stat_from_canonical.
Qed.

(** The only entry [create_pro_symlink] can change is the [pro] entry,
    and not when that is a directory. *)
Lemma create_pro_symlink_frame w dirA D r w' l :
  wf_world w -> dir_of w dirA = Some D ->
  create_pro_symlink dirA w = (r, w', l) ->
  cwd w' = cwd w /\ homedir w' = homedir w /\
  forall k, k <> removelast D ++ ["pro"] \/ nodes w !! k = Some Dir ->
            nodes w' !! k = nodes w !! k.
Proof.
  intros Hw Hd. destruct (create_pro_symlink_unfold _ _ _ Hw Hd) as (p' & ->).
  cbv zeta.
  destruct (stat w (pro_beside D)) as [[q n]|];
    [destruct (decide (q = D))|];
    destruct (nodes w !! (removelast D ++ ["pro"])) as [[| |t]|] eqn:HK;
    intros [= <- <- <-]; (split; [done|split; [done|]]); intros k Hk;
    try done; cbn [nodes with_nodes];
    (destruct (decide (k = removelast D ++ ["pro"])) as [->|Hne];
     [destruct Hk as [Hk|Hk]; congruence|]);
    rewrite ?lookup_insert_ne, ?lookup_delete_ne by done; done.
Qed.


(** After a call that returned, [pro] resolves to the directory. *)
Lemma create_pro_symlink_points w dirA D w' l :
  wf_world w -> dir_of w dirA = Some D ->
  create_pro_symlink dirA w = (Return tt, w', l) ->
  stat w' (pro_beside D) = Some (D, Dir).
Proof.
  intros Hw Hd Hc.
  destruct (dir_of_Some _ _ _ Hd) as (p0 & _ & Hst).
  destruct (stat_sound _ _ _ _ Hw Hst) as [HD Hcan]. specialize (Hcan eq_refl).
  assert (Hcan' : canonical (nodes w') D).
  { destruct (create_pro_symlink_frame _ _ _ _ _ _ Hw Hd Hc) as (_ & _ & Hfr).
    eapply dirs_from_mono; [|exact Hcan]. intros k Hk. rewrite Hfr; auto. }
  revert Hc Hcan'.
  destruct (create_pro_symlink_unfold _ _ _ Hw Hd) as (p' & ->). cbv zeta.
  destruct (stat w (pro_beside D)) as [[q n]|] eqn:Hpro.
  - destruct (decide (q = D)) as [->|Hne].
    + intros [= <- <-] _.
      destruct (stat_sound _ _ _ _ Hw Hpro) as [Hn _].
      rewrite (canonical_node_at _ _ Hcan) in Hn. by injection Hn as <-.
    + destruct (nodes w !! (removelast D ++ ["pro"])) as [[| |t]|] eqn:HK;
        intros [= <- <-] Hcan'; try done;
        apply stat_pro_link; try done; cbn [nodes with_nodes];
        by rewrite lookup_insert_eq.
  - destruct (nodes w !! (removelast D ++ ["pro"])) as [[| |t]|] eqn:HK;
      intros [= <- <-] Hcan'.
    apply stat_pro_link; try done. cbn [nodes with_nodes].
    by rewrite lookup_insert_eq.
Qed.

(** When [pro] already resolves to the directory, nothing is done. *)
Lemma create_pro_symlink_current w dirA D n :
  wf_world w -> dir_of w dirA = Some D ->
  stat w (pro_beside D) = Some (D, n) ->
  exists l, create_pro_symlink dirA w = (Return tt, w, l) /\ mutations l = [].
Proof.
  intros Hw Hd Hpro.
  destruct (create_pro_symlink_unfold _ _ _ Hw Hd) as (p' & ->). cbv zeta.
  rewrite Hpro. rewrite decide_True by done. eauto.
Qed.

Lemma dir_of_canonical w p D :
  wf_world w -> dir_of w p = Some D -> canonical (nodes w) D.
Proof.
  intros Hw Hd. destruct (dir_of_Some _ _ _ Hd) as (p' & _ & Hst).
  by destruct (stat_sound _ _ _ _ Hw Hst) as [_ Hcan]; apply Hcan.
Qed.






(** C7. Staleness is decided on resolved paths: whatever the link [pro]
    holds as its target, if [pro] resolves to the directory being
    promoted the call makes no [unlink] and no [symlink] and leaves
    the world as it is. *)
Theorem promote_compares_resolved_paths w dirA D t :
  wf_world w -> dir_of w dirA = Some D ->
  nodes w !! (removelast D ++ ["pro"]) = Some (Link t) ->
  stat w (pro_beside D) = Some (D, Dir) ->
  exists l, create_pro_symlink dirA w = (Return tt, w, l) /\ mutations l = [].
Proof.
  intros Hw Hd _ Hpro. by eapply create_pro_symlink_current.
Qed.

(** C9. With [pro] a link that [stat] cannot follow to anything, the
    call raises [FileExistsError]: the link is not removed, the only
    mutating call is the [symlink] that fails, and the world is as it
    was. *)
Theorem promote_fails_on_dangling_link w dirA D t :
  wf_world w -> dir_of w dirA = Some D ->
  nodes w !! (removelast D ++ ["pro"]) = Some (Link t) ->
  stat w (pro_beside D) = None ->
  exists l,
    create_pro_symlink dirA w =
      (Raise (mkExn FileExistsError (str (pro_beside D))), w, l) /\
    mutations l = [EvSymlink (pro_beside D) (mkPath true D)].
Proof.
  intros Hw Hd HK Hpro.
  destruct (create_pro_symlink_unfold _ _ _ Hw Hd) as (p' & ->). cbv zeta.
  rewrite Hpro, HK. eauto.
Qed.

(** * The order of paths *)

Lemma string_compare_trans_lt a b c :
  String.compare a b = Lt -> String.compare b c = Lt -> String.compare a c = Lt.
Proof.
  intros H1 H2. apply String_as_OT.cmp_lt. apply String_as_OT.cmp_lt in H1, H2.
  eapply String_as_OT.lt_trans; eauto.
Qed.

Lemma string_compare_refl a : String.compare a a = Eq.
Proof. by apply (String_as_OT.cmp_eq a a). Qed.

Lemma lex_compare_refl l : lex_compare l l = Eq.
Proof. induction l as [|x l IH]; simpl; [done|]. by rewrite string_compare_refl. Qed.

Lemma lex_compare_antisym l1 : forall l2,
  lex_compare l1 l2 = CompOpp (lex_compare l2 l1).
Proof.
  induction l1 as [|x l1 IH]; intros [|y l2]; simpl; try done.
  rewrite (String.compare_antisym y x), IH.
  by destruct (String.compare x y).
Qed.

Lemma lex_compare_eq l1 : forall l2, lex_compare l1 l2 = Eq -> l1 = l2.
Proof.
  induction l1 as [|x l1 IH]; intros [|y l2]; simpl; try done.
  destruct (String.compare x y) eqn:Hc; try done.
  intros H. apply String.compare_eq_iff in Hc. f_equal; auto.
Qed.

Lemma lex_compare_trans_lt l1 : forall l2 l3,
  lex_compare l1 l2 = Lt -> lex_compare l2 l3 = Lt -> lex_compare l1 l3 = Lt.
Proof.
  induction l1 as [|x l1 IH]; intros [|y l2] [|z l3]; simpl; try done.
  destruct (String.compare x y) eqn:Hxy; try done;
    destruct (String.compare y z) eqn:Hyz; try done; intros H1 H2.
  - apply String.compare_eq_iff in Hxy, Hyz. subst.
    rewrite string_compare_refl. eauto.
  - apply String.compare_eq_iff in Hxy. subst. by rewrite Hyz.
  - apply String.compare_eq_iff in Hyz. subst. by rewrite Hxy.
  - by rewrite (string_compare_trans_lt _ _ _ Hxy Hyz).
Qed.

#[global] Instance path_le_total : Total path_le.
Proof.
  intros p q. unfold path_le.
  rewrite (lex_compare_antisym (cparts q)).
  destruct (lex_compare (cparts p) (cparts q)); simpl; auto.
Qed.

#[global] Instance path_le_trans : Transitive path_le.
Proof.
  intros p q r. unfold path_le.
  destruct (lex_compare (cparts p) (cparts q)) eqn:H1; [| |done];
    destruct (lex_compare (cparts q) (cparts r)) eqn:H2; try done; intros _ _.
  - apply lex_compare_eq in H1. rewrite H1, H2. done.
  - apply lex_compare_eq in H1. rewrite H1, H2. done.
  - apply lex_compare_eq in H2. rewrite <- H2, H1. done.
  - by rewrite (lex_compare_trans_lt _ _ _ H1 H2).
Qed.

Lemma sorted_perm l : sorted l ≡ₚ l.
Proof. apply merge_sort_Permutation. Qed.

Lemma sorted_elem_of l p : p ∈ sorted l <-> p ∈ l.
Proof. by rewrite sorted_perm. Qed.

Lemma sorted_nil l : sorted l = [] <-> l = [].
Proof.
  split; [|by intros ->].
  intros Hs. apply Permutation_nil_r. rewrite <- Hs. symmetry. apply sorted_perm.
Qed.

(** The head of the sorted list is the least path. *)
Lemma sorted_head_least l first rest :
  sorted l = first :: rest ->
  first ∈ l /\ forall q, q ∈ l -> path_le first q.
Proof.
  intros Hs.
  pose proof (StronglySorted_merge_sort path_le l) as Hss.
  fold (sorted l) in Hss. rewrite Hs in Hss.
  split.
  - apply sorted_elem_of. rewrite Hs. left.
  - intros q Hq. apply sorted_elem_of in Hq. rewrite Hs in Hq.
    apply elem_of_cons in Hq as [->|Hq].
    + unfold path_le. by rewrite lex_compare_refl.
    + apply StronglySorted_inv in Hss as [_ Hall].
      rewrite Forall_forall in Hall. by apply Hall.
Qed.

(** * Strings *)

Lemma append_assoc (a b c : string) : (a +:+ b) +:+ c = a +:+ (b +:+ c).
Proof.
  induction a as [|x a IH]; [done|].
  change (String x ((a +:+ b) +:+ c) = String x (a +:+ b +:+ c)). by rewrite IH.
Qed.

Lemma append_nil_r (a : string) : a +:+ "" = a.
Proof.
  induction a as [|x a IH]; [done|].
  change (String x (a +:+ "") = String x a). by rewrite IH.
Qed.

Lemma occurs_in_refl s : occurs_in s s.
Proof. exists "", "". simpl. by rewrite append_nil_r. Qed.

Lemma occurs_in_app_l s t x : occurs_in s t -> occurs_in s (x +:+ t).
Proof. intros (a & b & ->). exists (x +:+ a), b. by rewrite append_assoc. Qed.

Lemma occurs_in_app_r s t x : occurs_in s t -> occurs_in s (t +:+ x).
Proof. intros (a & b & ->). exists a, (b +:+ x). by rewrite !append_assoc. Qed.

Lemma occurs_in_join_with sep l s : s ∈ l -> occurs_in s (join_with sep l).
Proof.
  induction l as [|x l IH]; [by intros ?%elem_of_nil|].
  intros Hs. destruct l as [|y l].
  - apply list_elem_of_singleton in Hs as ->. apply occurs_in_refl.
  - change (join_with sep (x :: y :: l)) with (x +:+ sep +:+ join_with sep (y :: l)).
    apply elem_of_cons in Hs as [->|Hs].
    + apply occurs_in_app_r, occurs_in_refl.
    + by apply occurs_in_app_l, occurs_in_app_l, IH.
Qed.

(** * The lookups *)

Section LookupFacts.
Context `{Pathlib, CalibrationNames}.

Lemma resolve_Some w p q :
  realpath w p = Some q -> resolve p w = (Return (resolved w p), w, [EvRealpath p]).
Proof. intros Hq. unfold resolve, resolved. by rewrite Hq. Qed.

Lemma run_of_parse p r : parse_calibration_name p = Some r -> run_of p = Run.run r.
Proof. intros Hp. unfold run_of. by rewrite Hp. Qed.

(** The loop on a list in ascending run order: it returns, and what it
    returns is the last candidate not above [run], if there is one. *)
Lemma last_time_run_before_ascending run w l :
  StronglySorted (fun p q => run_of p <= run_of q) l ->
  (forall p, p ∈ l -> is_Some (parse_calibration_name p)) ->
  (forall p, p ∈ l -> is_Some (realpath w p)) ->
  forall acc, exists r tr,
    last_time_run_before run l acc w = (Return r, w, tr) /\
    ((r = acc /\ forall c, c ∈ l -> run < run_of c) \/
     (exists c, c ∈ l /\ r = Some (resolved w c) /\ run_of c <= run /\
                forall c', c' ∈ l -> run_of c' <= run -> run_of c' <= run_of c)).
Proof.
  induction l as [|p l IH]; intros Hs Hparse Hres acc.
  - exists acc, []. split; [done|]. left. split; [done|]. by intros c ?%elem_of_nil.
  - apply StronglySorted_inv in Hs as [Hs Hall]. rewrite Forall_forall in Hall.
    destruct (Hparse p) as [rp Hp]; [left|].
    destruct (Hres p) as [q Hq]; [left|].
    cbn [last_time_run_before]. unfold mbind, M_bind, bind, parse_.
    rewrite Hp. cbn. rewrite <- (run_of_parse _ _ Hp).
    destruct (Z.leb_spec (run_of p) run) as [Hle|Hgt].
    + rewrite (resolve_Some _ _ _ Hq).
      destruct (IH Hs) with (acc := Some (resolved w p)) as (r & tr & -> & Hr).
      { intros ? ?. apply Hparse. by right. }
      { intros ? ?. apply Hres. by right. }
      eexists _, _. split; [done|]. right.
      destruct Hr as [[-> Hnone]|(c & Hc & -> & Hcle & Hmax)].
      * exists p. split; [left|]. split; [done|]. split; [done|].
        intros c' [->|Hc']%elem_of_cons Hle'; [lia|].
        specialize (Hnone _ Hc'). lia.
      * exists c. split; [by right|]. split; [done|]. split; [done|].
        intros c' [->|Hc']%elem_of_cons Hle'; [by apply Hall|by apply Hmax].
    + eexists _, _. split; [done|]. left. split; [done|].
      intros c [->|Hc]%elem_of_cons; [done|].
      specialize (Hall _ Hc). simpl in Hall. lia.
Qed.

(** C1, as amended. When the candidates, taken in sorted path order,
    are in ascending run order (and each parses and resolves), the
    lookup without [time_run] returns a candidate with the greatest
    run not above the target, the bound included, and signals not
    found when every candidate is above the target. *)
Theorem time_calibration_floor_of_ascending_runs w pro run base_dir :
  let candidates :=
    rglob w (time_dir_of base_dir) ("*/" +:+ pro +:+ "/time_calibration.Run*.0000.h5") in
  (forall p, p ∈ candidates -> is_Some (parse_calibration_name p)) ->
  (forall p, p ∈ candidates -> is_Some (realpath w p)) ->
  runs_ascending (sorted candidates) ->
  ((forall c, c ∈ candidates -> run < run_of c) ->
   exists e, outcome (find_time_calibration_file pro run None base_dir) w = Raise e /\
             failure_of e = Some NotFound) /\
  (forall c0, c0 ∈ candidates -> run_of c0 <= run ->
   exists c, c ∈ candidates /\ run_of c <= run /\
             (forall c', c' ∈ candidates -> run_of c' <= run -> run_of c' <= run_of c) /\
             outcome (find_time_calibration_file pro run None base_dir) w
               = Return (resolved w c)).
Proof.
  intros candidates Hparse Hres Hasc.
  assert (Hss : StronglySorted (fun p q => run_of p <= run_of q) (sorted candidates)).
  { apply Sorted_StronglySorted; [|exact Hasc]. intros a b c ? ?. lia. }
  destruct (last_time_run_before_ascending run w (sorted candidates) Hss)
    with (acc := @None Path) as (r & tr & Hloop & Hr).
  { intros p Hp. apply Hparse. by apply sorted_elem_of. }
  { intros p Hp. apply Hres. by apply sorted_elem_of. }
  unfold find_time_calibration_file, outcome, fmap, M_fmap, mbind, M_bind, bind, rglob_.
  fold (time_dir_of base_dir). fold candidates. cbn.
  destruct (sorted candidates) as [|p0 l0] eqn:Hsorted.
  - apply (proj1 (sorted_nil _)) in Hsorted. split.
    + intros _. eexists. split; [done|]. reflexivity.
    + intros c0 Hc0. rewrite Hsorted in Hc0. by apply elem_of_nil in Hc0.
  - rewrite Hloop. split.
    + intros Hall. destruct Hr as [[-> _]|(c & Hc & _ & Hle & _)].
      * eexists. split; [done|]. reflexivity.
      * rewrite <- Hsorted in Hc. apply (proj1 (sorted_elem_of _ _)) in Hc.
        specialize (Hall _ Hc). lia.
    + intros c0 Hc0 Hle0. destruct Hr as [[_ Hnone]|(c & Hc & -> & Hle & Hmax)].
      * rewrite <- Hsorted in Hnone.
        apply (proj2 (sorted_elem_of _ _)) in Hc0.
        specialize (Hnone _ Hc0). lia.
      * rewrite <- Hsorted in Hc, Hmax. exists c.
        split; [by apply sorted_elem_of|]. split; [done|]. split; [|done].
        intros c' Hc'. apply Hmax. by apply sorted_elem_of.
Qed.

Lemma sorted_singleton p : sorted [p] = [p].
Proof. reflexivity. Qed.

Lemma sorted_length l : length (sorted l) = length l.
Proof. apply Permutation_length, sorted_perm. Qed.

(** C2, as amended. The pedestal lookup by run signals not found when
    no file matches and otherwise returns the resolution of the least
    match in path order, which is the single match when there is
    one; it never signals an ambiguous match. *)
Theorem pedestal_by_run_takes_first_match w pro pedestal_run date base_dir :
  let candidates :=
    rglob w (ped_dir_of base_dir)
      (pro +:+ "/drs4_pedestal.Run" +:+ fmt_0d 5 pedestal_run +:+ ".0000.h5") in
  let out := outcome (find_pedestal_file pro (Some pedestal_run) date base_dir) w in
  (candidates = [] ->
   exists e, out = Raise e /\ cls e = IOError /\ failure_of e = Some NotFound) /\
  (candidates <> [] ->
   exists first, first ∈ candidates /\ (forall q, q ∈ candidates -> path_le first q) /\
                 out = outcome (resolve first) w) /\
  (forall only, candidates = [only] -> out = outcome (resolve only) w) /\
  (forall e, out = Raise e -> failure_of e <> Some AmbiguousMatch).
Proof.
  intros candidates out. subst out.
  unfold find_pedestal_file, outcome, fmap, M_fmap, mbind, M_bind, bind, rglob_.
  fold (ped_dir_of base_dir). fold candidates. cbn.
  destruct (sorted candidates) as [|first rest] eqn:Hsorted.
  - apply (proj1 (sorted_nil _)) in Hsorted. cbn.
    split; [|split; [|split]].
    + intros _. eexists. split; [done|]. split; reflexivity.
    + done.
    + intros only Heq. congruence.
    + intros e [= <-]. discriminate.
  - destruct (sorted_head_least _ _ _ Hsorted) as [Hin Hleast].
    assert (Hcls : forall e, (resolve first w).1.1 = Raise e ->
                        failure_of e <> Some AmbiguousMatch).
    { intros e. unfold resolve. destruct (realpath w first); simpl; [done|].
      intros [= <-]. discriminate. }
    destruct (resolve first w) as [[r w'] l] eqn:Hres. cbn in *.
    split; [|split; [|split]].
    + intros Hnil. apply (proj2 (sorted_nil _)) in Hnil. congruence.
    + intros _. exists first. by rewrite Hres.
    + intros only Heq. rewrite Heq, sorted_singleton in Hsorted.
      injection Hsorted as <- _. by rewrite Hres.
    + exact Hcls.
Qed.


Lemma occurs_in_repr_list l c : c ∈ l -> occurs_in (repr_path c) (repr_list l).
Proof.
  intros Hc. unfold repr_list.
  apply occurs_in_app_l, occurs_in_app_r, occurs_in_join_with.
  by apply list_elem_of_fmap_2.
Qed.

(** C4. The pedestal lookup by date: no match is not found, a single
    match is returned (resolved), two or more raise the ambiguous
    error, whose message shows every candidate. *)
Theorem pedestal_by_date_is_unique_match w pro date base_dir :
  let candidates :=
    glob w (ped_dir_of base_dir // date // pro) "drs4_pedestal*.0000.h5" in
  let out := outcome (find_pedestal_file pro None (Some date) base_dir) w in
  (candidates = [] ->
   exists e, out = Raise e /\ cls e = IOError /\ failure_of e = Some NotFound) /\
  (forall only, candidates = [only] -> out = outcome (resolve only) w) /\
  ((2 <= length candidates)%nat ->
   exists e, out = Raise e /\ cls e = IOError /\ failure_of e = Some AmbiguousMatch /\
             forall c, c ∈ candidates -> occurs_in (repr_path c) (msg e)).
Proof.
  intros candidates out. subst out.
  unfold find_pedestal_file, outcome, fmap, M_fmap, mbind, M_bind, bind, glob_.
  fold (ped_dir_of base_dir). fold candidates. cbn.
  pose proof (sorted_length candidates) as Hlen.
  destruct (sorted candidates) as [|first [|second rest]] eqn:Hsorted.
  - apply (proj1 (sorted_nil _)) in Hsorted. rewrite Hsorted. cbn.
    split; [|split].
    + intros _. eexists. split; [done|]. split; reflexivity.
    + done.
    + simpl. lia.
  - destruct (resolve first w) as [[r w'] l] eqn:Hres. cbn.
    split; [|split].
    + intros Hnil. rewrite Hnil in Hlen. done.
    + intros only Heq. rewrite Heq, sorted_singleton in Hsorted.
      injection Hsorted as <-. by rewrite Hres.
    + simpl in Hlen. lia.
  - cbn. split; [|split].
    + intros Hnil. rewrite Hnil in Hlen. done.
    + intros only Heq. rewrite Heq in Hlen. done.
    + intros _. eexists. split; [done|]. split; [reflexivity|]. split; [reflexivity|].
      intros c Hc. cbn [msg].
      apply occurs_in_app_l, occurs_in_app_l, occurs_in_app_l, occurs_in_app_r.
      apply occurs_in_repr_list. rewrite <- Hsorted. by apply sorted_elem_of.
Qed.

(** C8. With neither a run nor a date the pedestal lookup raises a
    [ValueError] and has asked nothing of the file system; the
    failure is neither the not-found nor the ambiguous one. *)
Theorem pedestal_needs_run_or_date w pro base_dir :
  exists e,
    find_pedestal_file pro None None base_dir w = (Raise e, w, []) /\
    cls e = ValueError /\
    failure_of e = Some InvalidArgument /\
    failure_of e <> Some NotFound /\ failure_of e <> Some AmbiguousMatch.
Proof. eexists. split; [reflexivity|]. by repeat split. Qed.

(** C10. With a run given, the date plays no part: the outcome, the
    world and the system calls are the same for any two dates. *)
Theorem pedestal_by_run_ignores_date w pro pedestal_run d1 d2 base_dir :
  find_pedestal_file pro (Some pedestal_run) d1 base_dir w
  = find_pedestal_file pro (Some pedestal_run) d2 base_dir w.
Proof. reflexivity. Qed.


(** The loop itself raises no [IOError], and gives no answer only when
    it had none and stops at once. *)
Lemma last_time_run_before_outcome run w l : forall acc r w' tr,
  last_time_run_before run l acc w = (r, w', tr) ->
  match r with
  | Raise e => cls e <> IOError
  | Return None =>
      acc = None /\ match l with [] => True | first :: _ => run < run_of first end
  | Return (Some _) => True
  end.
Proof.
  induction l as [|p l IH]; intros acc r w' tr.
  - intros [= <- <- <-]. by destruct acc.
  - cbn [last_time_run_before]. unfold mbind, M_bind, bind, parse_.
    destruct (parse_calibration_name p) as [rp|] eqn:Hp; cbn.
    + rewrite <- (run_of_parse _ _ Hp).
      destruct (Z.leb_spec (run_of p) run) as [Hle|Hgt].
      * unfold resolve. destruct (realpath w p) as [q|].
        -- destruct (last_time_run_before run l (Some (mkPath true q)) w)
             as [[r' w''] tr'] eqn:Hloop.
           specialize (IH _ _ _ _ Hloop).
           intros [= <- <- <-]. destruct r' as [[?|]|]; try done. by destruct IH.
        -- by intros [= <- <- <-].
      * intros [= <- <- <-]. by destruct acc.
    + by intros [= <- <- <-].
Qed.

(** C3. Every [IOError] a lookup raises tells the caller which failure
    it is: [failure_of] answers ambiguous exactly when more than one
    file matched a query that wants one, and not found otherwise,
    when nothing answers the query. *)
Theorem not_found_and_ambiguous_told_apart w q e :
  outcome (lookup q) w = Raise e -> cls e = IOError ->
  (failure_of e = Some AmbiguousMatch /\ ambiguous w q) \/
  (failure_of e = Some NotFound /\ no_artifact w q /\ ~ ambiguous w q).
Proof.
  destruct q as [run sub_run r0_dir|pro [pedestal_run|] [date|] base_dir
                 |date base_dir|pro run [time_run|] base_dir];
    unfold lookup, outcome.
  - unfold find_r0_subrun, fmap, M_fmap, mbind, M_bind, bind, rglob_. cbn.
    destruct (sorted _) as [|first rest] eqn:Hs; cbn; [|done].
    apply (proj1 (sorted_nil _)) in Hs.
    intros [= <-] _. right. split; [reflexivity|]. split; [exact Hs|tauto].
  - unfold find_pedestal_file, fmap, M_fmap, mbind, M_bind, bind, rglob_. cbn.
    destruct (sorted _) as [|first rest] eqn:Hs; cbn.
    + apply (proj1 (sorted_nil _)) in Hs.
      intros [= <-] _. right. split; [reflexivity|]. split; [exact Hs|tauto].
    + unfold resolve. destruct (realpath w first); cbn; [done|].
      by intros [= <-].
  - unfold find_pedestal_file, fmap, M_fmap, mbind, M_bind, bind, rglob_. cbn.
    destruct (sorted _) as [|first rest] eqn:Hs; cbn.
    + apply (proj1 (sorted_nil _)) in Hs.
      intros [= <-] _. right. split; [reflexivity|]. split; [exact Hs|tauto].
    + unfold resolve. destruct (realpath w first); cbn; [done|].
      by intros [= <-].
  - unfold find_pedestal_file, fmap, M_fmap, mbind, M_bind, bind, glob_. cbn.
    match goal with |- context [sorted ?l] =>
      pose proof (sorted_length l) as Hlen;
      destruct (sorted l) as [|first [|second rest]] eqn:Hs end; cbn.
    + apply (proj1 (sorted_nil _)) in Hs.
      intros [= <-] _. right. split; [reflexivity|]. split; [exact Hs|].
      unfold ambiguous, ped_dir_of. cbn. rewrite Hs. simpl. lia.
    + unfold resolve. destruct (realpath w first); cbn; [done|].
      by intros [= <-].
    + intros [= <-] _. left. split; [reflexivity|].
      unfold ambiguous, ped_dir_of. cbn. simpl in Hlen. cbn in Hlen. lia.
  - cbn. by intros [= <-].
  - unfold find_run_summary, mbind, M_bind, bind, exists_.
    match goal with |- context [stat w ?p] => destruct (stat w p) eqn:Hst end.
    + rewrite bool_decide_eq_true_2 by eauto. done.
    + rewrite bool_decide_eq_false_2 by (intros [? ?]; congruence). cbn.
      intros [= <-] _. right. split; [reflexivity|]. split; [exact Hst|tauto].
  - unfold find_time_calibration_file, fmap, M_fmap, mbind, M_bind, bind, rglob_. cbn.
    destruct (sorted _) as [|first rest] eqn:Hs; cbn.
    + apply (proj1 (sorted_nil _)) in Hs.
      intros [= <-] _. right. split; [reflexivity|]. split; [exact Hs|tauto].
    + unfold resolve. destruct (realpath w first); cbn; [done|].
      by intros [= <-].
  - unfold find_time_calibration_file, fmap, M_fmap, mbind, M_bind, bind, rglob_.
    fold (time_dir_of base_dir). unfold no_artifact, ambiguous.
    destruct (sorted _) as [|first rest] eqn:Hs.
    + cbn. intros [= <-] _. right. split; [reflexivity|]. tauto.
    + cbn -[last_time_run_before].
      destruct (last_time_run_before run (first :: rest) None w)
        as [[r w'] tr] eqn:Hloop.
      pose proof (last_time_run_before_outcome _ _ _ _ _ _ _ Hloop) as Hr.
      destruct r as [[time_file|]|e']; cbn.
      * done.
      * intros [= <-] _. right. split; [reflexivity|]. tauto.
      * intros [= <-] Hcls. done.
Qed.

End LookupFacts.

(** * The module at work *)





Lemma promote_compares_resolved_paths_witness :
  mkPath false ["v1"; ""] <> dir_v1 /\
  exists l, create_pro_symlink dir_v1 site_relative = (Return tt, site_relative, l) /\
            mutations l = [].
Proof.
  split; [discriminate|].
  apply (promote_compares_resolved_paths site_relative dir_v1 ["data"; "v1"]
           (mkPath false ["v1"; ""])).
  - exact I.
  - reflexivity.
  - reflexivity.
  - reflexivity.
Defined.

Lemma promote_fails_on_dangling_link_witness :
  exists l,
    create_pro_symlink dir_v1 site_dangling =
      (Raise (mkExn FileExistsError (str (pro_beside ["data"; "v1"]))), site_dangling, l) /\
    mutations l = [EvSymlink (pro_beside ["data"; "v1"]) (mkPath true ["data"; "v1"])].
Proof.
  apply (promote_fails_on_dangling_link site_dangling dir_v1 ["data"; "v1"]
           (mkPath false ["v0"])).
  - exact I.
  - reflexivity.
  - reflexivity.
  - reflexivity.
Defined.

(** Spelled through the [pro] link the same string names another place
    once the link has moved: the second call is then a call on that
    other place. *)
Remark promote_again_through_pro :
  let w1 := world_after (create_pro_symlink dir_pro_next) site_next in
  dir_of site_next dir_pro_next = Some ["data"; "v2"] /\
  outcome (create_pro_symlink dir_pro_next) site_next = Return tt /\
  dir_of w1 dir_pro_next = None /\
  mutations (trace (create_pro_symlink dir_pro_next) w1)
  = [EvSymlink (mkPath true ["data"; "v2"; "pro"]) (mkPath true ["data"; "v2"; "next"])].
Proof. vm_compute. done. Qed.

Section Examples.
#[local] Existing Instance plain_pathlib.
#[local] Existing Instance spec_names.

Lemma time_calibration_floor_counterexample :
  let w := tree_dates_against_runs in
  let earlier := time_file "20200102" "v1" "time_calibration.Run00105.0000.h5" in
  earlier ∈ rglob w (time_dir_of base) ("*/" +:+ "v1" +:+ "/time_calibration.Run*.0000.h5") /\
  run_of earlier = 105 /\ 105 <= 107 /\
  outcome (find_time_calibration_file "v1" 107 None base) w
  = Raise (mkExn IOError
             ("No time calibration file found before run 107 for prod v1" +:+ nl)).
Proof.
  intros w earlier. split; [|split; [|split]].
  - apply list_elem_of_In. vm_compute. auto.
  - vm_compute. reflexivity.
  - lia.
  - vm_compute. reflexivity.
Qed.

Lemma time_calibration_floor_witness :
  let w := tree_three_runs in
  let candidates :=
    rglob w (time_dir_of base) ("*/" +:+ "v1" +:+ "/time_calibration.Run*.0000.h5") in
  exists c, c ∈ candidates /\ run_of c <= 107 /\
            (forall c', c' ∈ candidates -> run_of c' <= 107 -> run_of c' <= run_of c) /\
            outcome (find_time_calibration_file "v1" 107 None base) w
            = Return (resolved w c).
Proof.
  intros w candidates.
  apply (proj2 (time_calibration_floor_of_ascending_runs w "v1" 107 base
           ltac:(apply Forall_forall; apply (bool_decide_unpack _); vm_compute; exact I)
           ltac:(apply Forall_forall; apply (bool_decide_unpack _); vm_compute; exact I)
           ltac:(apply (bool_decide_unpack _); vm_compute; exact I))
         (time_file "20200101" "v1" "time_calibration.Run00100.0000.h5")).
  - apply list_elem_of_In. vm_compute. auto.
  - vm_compute. discriminate.
Defined.

Lemma pedestal_by_run_counterexample :
  let w := tree_pedestals in
  length (rglob w (ped_dir_of base)
            ("v1" +:+ "/drs4_pedestal.Run" +:+ fmt_0d 5 7 +:+ ".0000.h5")) = 2%nat /\
  outcome (find_pedestal_file "v1" (Some 7) None base) w
  = Return (ped_file "20200101" "v1" "drs4_pedestal.Run00007.0000.h5").
Proof. split; vm_compute; reflexivity. Qed.

Lemma pedestal_by_run_takes_first_match_witness :
  let w := tree_pedestals in
  let candidates :=
    rglob w (ped_dir_of base)
      ("v1" +:+ "/drs4_pedestal.Run" +:+ fmt_0d 5 7 +:+ ".0000.h5") in
  exists first, first ∈ candidates /\ (forall q, q ∈ candidates -> path_le first q) /\
                outcome (find_pedestal_file "v1" (Some 7) None base) w
                = outcome (resolve first) w.
Proof.
  intros w candidates.
  apply (proj1 (proj2 (pedestal_by_run_takes_first_match w "v1" 7 None base))).
  vm_compute. discriminate.
Defined.

Lemma not_found_and_ambiguous_told_apart_witness :
  let q := PedestalFile "v1" None (Some "20200101") base in
  let e := mkExn IOError
             ("Too many pedestal files found for date 20200101: "
              +:+ repr_list [ped_file "20200101" "v1" "drs4_pedestal.Run00007.0000.h5";
                             ped_file "20200101" "v1" "drs4_pedestal.Run00008.0000.h5"]
              +:+ ", choose one run" +:+ nl) in
  outcome (lookup q) tree_pedestals = Raise e /\
  ((failure_of e = Some AmbiguousMatch /\ ambiguous tree_pedestals q) \/
   (failure_of e = Some NotFound /\ no_artifact tree_pedestals q /\
    ~ ambiguous tree_pedestals q)).
Proof.
  intros q e. split; [vm_compute; reflexivity|].
  apply (not_found_and_ambiguous_told_apart tree_pedestals q e).
  - vm_compute. reflexivity.
  - reflexivity.
Defined.

Lemma pedestal_by_date_is_unique_match_witness :
  let w := tree_pedestals in
  let candidates :=
    glob w (ped_dir_of base // "20200101" // "v1") "drs4_pedestal*.0000.h5" in
  exists e, outcome (find_pedestal_file "v1" None (Some "20200101") base) w = Raise e /\
            cls e = IOError /\ failure_of e = Some AmbiguousMatch /\
            forall c, c ∈ candidates -> occurs_in (repr_path c) (msg e).
Proof.
  intros w candidates.
  apply (proj2 (proj2 (pedestal_by_date_is_unique_match w "v1" "20200101" base))).
  vm_compute. lia.
Defined.

(** The same lookup with one match and with none. *)
Example pedestal_by_date_single :
  outcome (find_pedestal_file "v1" None (Some "20200103") base) tree_pedestals
  = Return (ped_file "20200103" "v1" "drs4_pedestal.Run00009.0000.h5").
Proof. vm_compute. reflexivity. Qed.

Example pedestal_by_date_none :
  outcome (find_pedestal_file "v1" None (Some "20200104") base) tree_pedestals
  = Raise (mkExn IOError "No pedestal file found for date 20200104").
Proof. vm_compute. reflexivity. Qed.

(** The scenario of three runs: 107 gives run 105, 100 gives run 100,
    99 gives nothing. *)
Example three_runs_at_107 :
  outcome (find_time_calibration_file "v1" 107 None base) tree_three_runs
  = Return (time_file "20200101" "v1" "time_calibration.Run00105.0000.h5").
Proof. vm_compute. reflexivity. Qed.

Example three_runs_at_100 :
  outcome (find_time_calibration_file "v1" 100 None base) tree_three_runs
  = Return (time_file "20200101" "v1" "time_calibration.Run00100.0000.h5").
Proof. vm_compute. reflexivity. Qed.

Example three_runs_at_99 :
  outcome (find_time_calibration_file "v1" 99 None base) tree_three_runs
  = Raise (mkExn IOError
             ("No time calibration file found before run 99 for prod v1" +:+ nl)).
Proof. vm_compute. reflexivity. Qed.
End Examples.

(** [pro] reached through a chain of links with dots is current too. *)
Example promote_keeps_chain :
  mutations (trace (create_pro_symlink dir_v1) site_chain) = [] /\
  world_after (create_pro_symlink dir_v1) site_chain = site_chain.
Proof. split; vm_compute; reflexivity. Qed.

(** * More on [create_pro_symlink] *)

(** X1. No [pro] yet: the call makes the link, with the resolved
    directory as its target, and that is its only mutating call. *)
Theorem create_pro_symlink_makes_link w dirA D :
  wf_world w -> dir_of w dirA = Some D ->
  nodes w !! (removelast D ++ ["pro"]) = None ->
  exists l,
    create_pro_symlink dirA w =
      (Return tt,
       with_nodes w (<[removelast D ++ ["pro"] := Link (mkPath true D)]> (nodes w)), l) /\
    mutations l = [EvSymlink (pro_beside D) (mkPath true D)].
Proof.
  intros Hw Hd HK.
  pose proof (dir_of_canonical _ _ _ Hw Hd) as Hcan.
  destruct (create_pro_symlink_unfold _ _ _ Hw Hd) as (p' & ->). cbv zeta.
  rewrite pro_beside_eq, stat_pro by (by apply canonical_removelast).
  rewrite HK. eauto.
Qed.

(** X2. [pro] is there and resolves to another place, and is not a
    directory itself: it is removed, be it a link or a regular file,
    and the link to the directory is made in its place. *)
Theorem create_pro_symlink_replaces_stale w dirA D q n :
  wf_world w -> dir_of w dirA = Some D ->
  stat w (pro_beside D) = Some (q, n) -> q <> D ->
  nodes w !! (removelast D ++ ["pro"]) <> Some Dir ->
  exists l,
    create_pro_symlink dirA w =
      (Return tt,
       with_nodes w (<[removelast D ++ ["pro"] := Link (mkPath true D)]> (nodes w)), l) /\
    mutations l = [EvUnlink (pro_beside D); EvSymlink (pro_beside D) (mkPath true D)].
Proof.
  intros Hw Hd Hpro Hne HK.
  pose proof (dir_of_canonical _ _ _ Hw Hd) as Hcan.
  destruct (create_pro_symlink_unfold _ _ _ Hw Hd) as (p' & ->). cbv zeta.
  rewrite Hpro, decide_False by done.
  rewrite pro_beside_eq, stat_pro in Hpro by (by apply canonical_removelast).
  destruct (nodes w !! (removelast D ++ ["pro"])) as [[| |t]|] eqn:Hk; try done;
    rewrite insert_delete_eq; eauto.
Qed.

(** X3. [pro] is a directory of its own, not the one promoted: the call
    raises when it tries to unlink it, and nothing has changed. *)
Theorem create_pro_symlink_spares_directory w dirA D :
  wf_world w -> dir_of w dirA = Some D ->
  nodes w !! (removelast D ++ ["pro"]) = Some Dir ->
  D <> removelast D ++ ["pro"] ->
  exists l,
    create_pro_symlink dirA w =
      (Raise (mkExn IsADirectoryError (str (pro_beside D))), w, l) /\
    mutations l = [EvUnlink (pro_beside D)].
Proof.
  intros Hw Hd HK Hne.
  pose proof (dir_of_canonical _ _ _ Hw Hd) as Hcan.
  destruct (create_pro_symlink_unfold _ _ _ Hw Hd) as (p' & ->). cbv zeta.
  rewrite pro_beside_eq, stat_pro by (by apply canonical_removelast).
  rewrite HK, decide_False by done. eauto.
Qed.

(** X4. Whatever the outcome, the one entry a call can change is the
    [pro] entry beside the directory, only when that entry is not a
    directory, and only into the link to the directory. *)
Theorem create_pro_symlink_changes_only_pro w dirA D r w' l :
  wf_world w -> dir_of w dirA = Some D ->
  create_pro_symlink dirA w = (r, w', l) ->
  cwd w' = cwd w /\ homedir w' = homedir w /\
  forall k, nodes w' !! k <> nodes w !! k ->
            k = removelast D ++ ["pro"] /\
            nodes w !! k <> Some Dir /\
            nodes w' !! k = Some (Link (mkPath true D)).
Proof.
  intros Hw Hd. destruct (create_pro_symlink_unfold _ _ _ Hw Hd) as (p' & ->).
  cbv zeta.
  destruct (stat w (pro_beside D)) as [[q n]|];
    [destruct (decide (q = D))|];
    destruct (nodes w !! (removelast D ++ ["pro"])) as [[| |t]|] eqn:HK;
    intros [= <- <- <-]; (split; [done|split; [done|]]); intros k Hk;
    try done; cbn [nodes with_nodes] in *;
    (destruct (decide (k = removelast D ++ ["pro"])) as [->|Hne];
     [|by rewrite ?lookup_insert_ne, ?lookup_delete_ne in Hk by done]);
    rewrite lookup_insert_eq, HK; done.
Qed.

(** X5. A call on an existing directory that returns leaves [pro]
    resolving to that directory. *)
Theorem create_pro_symlink_returns_pointing w dirA D w' l :
  wf_world w -> dir_of w dirA = Some D ->
  create_pro_symlink dirA w = (Return tt, w', l) ->
  stat w' (pro_beside D) = Some (D, Dir) /\ dir_of w' (mkPath true D) = Some D.
Proof.
  intros Hw Hd Hc. split; [by eapply create_pro_symlink_points|].
  pose proof (dir_of_canonical _ _ _ Hw Hd) as Hcan.
  destruct (create_pro_symlink_frame _ _ _ _ _ _ Hw Hd Hc) as (_ & _ & Hfr).
  unfold dir_of, outcome, expanduser, stat, start_of. cbn [absolute parts ret fst].
  rewrite stat_from_canonical; [done|].
  eapply dirs_from_mono; [|exact Hcan]. intros k Hk. rewrite Hfr; auto.
Qed.

(** A directory that is not there resolves to its own path. *)
Lemma realpath_missing (fs : gmap (list string) node) fuel P name :
  canonical fs P -> is_dot name = false -> is_dotdot name = false ->
  fs !! (P ++ [name]) = None ->
  realpath_from fuel fs [] (P ++ [name]) = Some (P ++ [name]).
Proof.
  intros HP Hd Hdd Hn.
  rewrite (realpath_from_dirs _ _ _ _ _ HP), app_nil_l.
  rewrite realpath_from_cons, Hd, Hdd, Hn. apply realpath_from_nil.
Qed.

Lemma stat_missing (fs : gmap (list string) node) fuel P name :
  canonical fs P -> is_dot name = false -> is_dotdot name = false ->
  fs !! (P ++ [name]) = None ->
  stat_from fuel fs [] ((P ++ [name]) ++ []) = None.
Proof.
  intros HP Hd Hdd Hn. rewrite app_nil_r.
  rewrite (stat_from_dirs _ _ _ _ _ HP), app_nil_l.
  by rewrite stat_from_cons, Hd, Hdd, Hn.
Qed.

(** The call on a missing directory, with its parent there and no
    [pro] beside it. *)
Lemma create_pro_symlink_missing w P name :
  canonical (nodes w) P -> is_dot name = false -> is_dotdot name = false ->
  nodes w !! (P ++ [name]) = None ->
  nodes w !! (P ++ ["pro"]) = None ->
  let out := mkPath true (P ++ [name]) in
  let pro := mkPath true (P ++ ["pro"]) in
  create_pro_symlink out w =
    (Return tt, with_nodes w (<[P ++ ["pro"] := Link out]> (nodes w)),
     [EvRealpath out; EvStat pro; EvStat pro; EvSymlink pro out]).
Proof.
  intros HP Hd Hdd Hn HK out pro.
  unfold create_pro_symlink, mbind, M_bind, bind, expanduser.
  cbn [absolute out ret]. unfold resolve at 1, realpath, start_of.
  cbn [absolute parts]. rewrite (realpath_missing _ _ _ _ HP Hd Hdd Hn).
  change (parent (mkPath true (P ++ [name])) // "pro")
    with (mkPath true (removelast (P ++ [name]) ++ ["pro"])).
  rewrite removelast_last. fold pro. fold out.
  subst pro. unfold exists_ at 1. rewrite (stat_pro _ _ HP), HK.
  rewrite bool_decide_eq_false_2 by (intros [? ?]; congruence). simpl.
  unfold exists_. rewrite (stat_pro _ _ HP), HK.
  rewrite bool_decide_eq_false_2 by (intros [? ?]; congruence). simpl.
  unfold symlink_to. by rewrite (locate_pro _ _ HP), HK.
Qed.

(** A [pro] link to a directory that is not there leads nowhere. *)
Lemma stat_pro_leads_nowhere w P name :
  canonical (nodes w) P -> is_dot name = false -> is_dotdot name = false ->
  name <> "pro" ->
  nodes w !! (P ++ [name]) = None ->
  nodes w !! (P ++ ["pro"]) = None ->
  stat (with_nodes w (<[P ++ ["pro"] := Link (mkPath true (P ++ [name]))]> (nodes w)))
       (mkPath true (P ++ ["pro"])) = None.
Proof.
  intros HP Hd Hdd Hpro Hn HK.
  assert (HP' : canonical (<[P ++ ["pro"] := Link (mkPath true (P ++ [name]))]> (nodes w)) P).
  { apply canonical_insert_link; [congruence|done]. }
  rewrite stat_pro by exact HP'. cbn [nodes with_nodes].
  rewrite lookup_insert_eq. cbn [absolute parts].
  apply stat_missing; try done.
  rewrite lookup_insert_ne; [done|]. intros Heq. apply app_inj_tail in Heq as [_ Heq].
  congruence.
Qed.

(** X6. The call does not ask that the directory exists: on a missing
    directory whose parent is there, with no [pro] beside it, it
    returns and leaves a [pro] link that leads nowhere. *)
Theorem create_pro_symlink_missing_directory_dangles w P name :
  canonical (nodes w) P -> is_dot name = false -> is_dotdot name = false ->
  name <> "pro" ->
  nodes w !! (P ++ [name]) = None ->
  nodes w !! (P ++ ["pro"]) = None ->
  exists w' l,
    create_pro_symlink (mkPath true (P ++ [name])) w = (Return tt, w', l) /\
    nodes w' !! (P ++ ["pro"]) = Some (Link (mkPath true (P ++ [name]))) /\
    stat w' (mkPath true (P ++ ["pro"])) = None.
Proof.
  intros HP Hd Hdd Hpro Hn HK.
  rewrite (create_pro_symlink_missing _ _ _ HP Hd Hdd Hn HK).
  eexists _, _. split; [done|]. cbn [nodes with_nodes].
  split; [by rewrite lookup_insert_eq|].
  by apply stat_pro_leads_nowhere.
Qed.

(** X7. After such a call the link is in the way: promoting a sibling
    that does exist now raises [FileExistsError] and changes nothing. *)
Theorem create_pro_symlink_missing_then_blocked w P name b :
  wf_world w ->
  canonical (nodes w) (P ++ [b]) ->
  is_dot name = false -> is_dotdot name = false -> name <> "pro" ->
  nodes w !! (P ++ [name]) = None ->
  nodes w !! (P ++ ["pro"]) = None ->
  exists w' l l',
    create_pro_symlink (mkPath true (P ++ [name])) w = (Return tt, w', l) /\
    create_pro_symlink (mkPath true (P ++ [b])) w' =
      (Raise (mkExn FileExistsError (str (mkPath true (P ++ ["pro"])))), w', l').
Proof.
  intros Hw Hb Hd Hdd Hpro Hn HK.
  assert (HP : canonical (nodes w) P) by (by apply dirs_from_app in Hb as [? _]).
  pose proof (stat_pro_leads_nowhere _ _ _ HP Hd Hdd Hpro Hn HK) as Hst.
  rewrite (create_pro_symlink_missing _ _ _ HP Hd Hdd Hn HK).
  remember (with_nodes w (<[P ++ ["pro"] := Link (mkPath true (P ++ [name]))]> (nodes w)))
    as w' eqn:Hw'.
  assert (HK' : nodes w' !! (P ++ ["pro"]) = Some (Link (mkPath true (P ++ [name]))))
    by (subst w'; cbn [nodes with_nodes]; by rewrite lookup_insert_eq).
  eexists w', _.
  assert (Hmono : forall k, nodes w !! k = Some Dir -> nodes w' !! k = Some Dir).
  { intros k Hk. subst w'. cbn [nodes with_nodes].
    rewrite lookup_insert_ne; [done|congruence]. }
  assert (Hwf : wf_world w').
  { unfold wf_world. replace (cwd w') with (cwd w) by (by subst w').
    eapply dirs_from_mono; [exact Hmono|exact Hw]. }
  assert (Hb' : canonical (nodes w') (P ++ [b])) by (eapply dirs_from_mono; eauto).
  assert (Hdir : dir_of w' (mkPath true (P ++ [b])) = Some (P ++ [b])).
  { unfold dir_of, outcome, expanduser, stat, start_of. cbn [absolute parts ret fst].
    by rewrite stat_from_canonical. }
  destruct (create_pro_symlink_unfold _ _ _ Hwf Hdir) as (p' & ->). cbv zeta.
  rewrite pro_beside_eq, removelast_last, Hst, HK'.
  eexists. split; reflexivity.
Qed.

(** * More on the lookups *)

Section MoreLookupFacts.
Context `{Pathlib, CalibrationNames}.

(** The loop leaves the world alone and asks only for resolutions. *)
Lemma last_time_run_before_frame run w l : forall acc r w' tr,
  last_time_run_before run l acc w = (r, w', tr) ->
  w' = w /\ mutations tr = [] /\ searches tr = [].
Proof.
  induction l as [|p l IH]; intros acc r w' tr.
  - by intros [= <- <- <-].
  - cbn [last_time_run_before]. unfold mbind, M_bind, bind, parse_.
    destruct (parse_calibration_name p) as [rp|]; cbn.
    + destruct (Run.run rp <=? run).
      * unfold resolve. destruct (realpath w p) as [q|].
        -- destruct (last_time_run_before run l (Some (mkPath true q)) w)
             as [[r' w''] tr'] eqn:Hloop.
           destruct (IH _ _ _ _ Hloop) as (-> & Hm & Hs).
           intros [= <- <- <-]. unfold mutations, searches in *.
           simpl. by rewrite Hm, Hs.
        -- by intros [= <- <- <-].
      * by intros [= <- <- <-].
    + by intros [= <- <- <-].
Qed.

(** An answer of the loop is what it had or a candidate not above [run]. *)
Lemma last_time_run_before_sound run w l : forall acc p w' tr,
  last_time_run_before run l acc w = (Return (Some p), w', tr) ->
  acc = Some p \/
  exists c r, c ∈ l /\ parse_calibration_name c = Some r /\ Run.run r <= run /\
              p = resolved w c.
Proof.
  induction l as [|c0 l IH]; intros acc p w' tr.
  - intros [= -> _ _]. by left.
  - cbn [last_time_run_before]. unfold mbind, M_bind, bind, parse_.
    destruct (parse_calibration_name c0) as [rp|] eqn:Hp; cbn; [|done].
    destruct (Z.leb_spec (Run.run rp) run) as [Hle|Hgt].
    + unfold resolve. destruct (realpath w c0) as [q|] eqn:Hq; [|done].
      destruct (last_time_run_before run l (Some (mkPath true q)) w)
        as [[r' w''] tr'] eqn:Hloop.
      intros [= -> _ _].
      destruct (IH _ _ _ _ Hloop) as [[= <-]|(c & r & Hc & ? & ? & ?)].
      * right. exists c0, rp. split; [left|]. repeat split; try done.
        unfold resolved. by rewrite Hq.
      * right. exists c, r. split; [by right|done].
    + intros [= -> _ _]. by left.
Qed.

(** The loop, on candidates that parse and resolve: the last of the
    prefix whose runs are not above [run]. *)
Lemma last_time_run_before_prefix run w l :
  (forall p, p ∈ l -> is_Some (parse_calibration_name p)) ->
  (forall p, p ∈ l -> is_Some (realpath w p)) ->
  forall acc, exists tr,
    last_time_run_before run l acc w =
      (Return (match last (runs_before run l) with
               | Some c => Some (resolved w c)
               | None => acc
               end), w, tr).
Proof.
  induction l as [|p l IH]; intros Hparse Hres acc.
  - by eexists.
  - destruct (Hparse p) as [rp Hp]; [left|].
    destruct (Hres p) as [q Hq]; [left|].
    cbn [last_time_run_before runs_before]. unfold mbind, M_bind, bind, parse_.
    rewrite Hp. cbn. rewrite <- (run_of_parse _ _ Hp).
    destruct (run_of p <=? run).
    + rewrite (resolve_Some _ _ _ Hq).
      destruct (IH) with (acc := Some (resolved w p)) as (tr & ->).
      { intros ? ?. apply Hparse. by right. }
      { intros ? ?. apply Hres. by right. }
      eexists. rewrite last_cons. by destruct (last (runs_before run l)).
    + by eexists.
Qed.

(** A name the parser refuses ends the loop with the parser's error. *)
Lemma last_time_run_before_bad_name run w bad rest pre : forall acc,
  (forall p, p ∈ pre -> run_of p <= run /\ is_Some (parse_calibration_name p) /\
                        is_Some (realpath w p)) ->
  parse_calibration_name bad = None ->
  exists tr,
    last_time_run_before run (pre ++ bad :: rest) acc w =
      (Raise (mkExn ParseError (str bad)), w, tr).
Proof.
  induction pre as [|p pre IH]; intros acc Hpre Hbad.
  - cbn [app last_time_run_before]. unfold mbind, M_bind, bind, parse_.
    rewrite Hbad. by eexists.
  - destruct (Hpre p) as (Hle & [rp Hp] & [q Hq]); [left|].
    cbn [app last_time_run_before]. unfold mbind, M_bind, bind, parse_.
    rewrite Hp. cbn. rewrite <- (run_of_parse _ _ Hp).
    rewrite (proj2 (Z.leb_le _ _) Hle), (resolve_Some _ _ _ Hq).
    destruct (IH (Some (resolved w p))) as (tr & ->); [|done|by eexists].
    intros ? ?. apply Hpre. by right.
Qed.

Lemma runs_before_below run l c : c ∈ runs_before run l -> run_of c <= run.
Proof.
  induction l as [|p l IH]; cbn [runs_before]; [by intros ?%elem_of_nil|].
  destruct (Z.leb_spec (run_of p) run) as [Hle|Hgt]; [|by intros ?%elem_of_nil].
  intros [->|Hc]%elem_of_cons; [done|by apply IH].
Qed.

Lemma runs_before_prefix run l : exists u, l = runs_before run l ++ u.
Proof.
  induction l as [|p l [u IH]]; cbn [runs_before]; [by exists []|].
  destruct (run_of p <=? run); [|by eexists].
  exists u. cbn. by rewrite <- IH.
Qed.

Lemma runs_before_mono run1 run2 l :
  run1 <= run2 -> exists t, runs_before run2 l = runs_before run1 l ++ t.
Proof.
  intros Hle. induction l as [|p l [t IH]]; cbn [runs_before]; [by exists []|].
  destruct (Z.leb_spec (run_of p) run1) as [H1|H1].
  - rewrite (proj2 (Z.leb_le (run_of p) run2)) by lia.
    exists t. cbn. by rewrite <- IH.
  - by eexists.
Qed.

(** The lookup without [time_run] on a list that is not empty, from
    what the loop gives. *)
Lemma find_time_calibration_file_of_loop w pro run base_dir r w' tr :
  let l := sorted (rglob w (time_dir_of base_dir)
                     ("*/" +:+ pro +:+ "/time_calibration.Run*.0000.h5")) in
  l <> [] ->
  last_time_run_before run l None w = (r, w', tr) ->
  outcome (find_time_calibration_file pro run None base_dir) w =
    match r with
    | Return (Some p) => Return p
    | Return None =>
        Raise (mkExn IOError ("No time calibration file found before run " +:+ pretty run
                              +:+ " for prod " +:+ pro +:+ nl))
    | Raise e => Raise e
    end.
Proof.
  intros l Hne Hloop.
  unfold find_time_calibration_file, outcome, fmap, M_fmap, mbind, M_bind, bind, rglob_.
  fold (time_dir_of base_dir). cbn. subst l.
  destruct (sorted _) as [|p0 l0] eqn:Hl; [done|]. rewrite Hloop.
  by destruct r as [[?|]|].
Qed.

(** X8. The lookups change nothing: the world after is the world before,
    no link is removed or made, and the tree is searched at most once. *)
Theorem lookups_read_only w q :
  world_after (lookup q) w = w /\
  mutations (trace (lookup q) w) = [] /\
  (length (searches (trace (lookup q) w)) <= 1)%nat.
Proof.
  destruct q as [run sub_run r0_dir|pro [pedestal_run|] [date|] base_dir
                 |date base_dir|pro run [time_run|] base_dir];
    unfold lookup, world_after, trace.
  - unfold find_r0_subrun, fmap, M_fmap, mbind, M_bind, bind, rglob_. cbn.
    destruct (sorted _); cbn; auto.
  - unfold find_pedestal_file, fmap, M_fmap, mbind, M_bind, bind, rglob_. cbn.
    destruct (sorted _) as [|first rest]; cbn; [auto|].
    unfold resolve. destruct (realpath w first); cbn; auto.
  - unfold find_pedestal_file, fmap, M_fmap, mbind, M_bind, bind, rglob_. cbn.
    destruct (sorted _) as [|first rest]; cbn; [auto|].
    unfold resolve. destruct (realpath w first); cbn; auto.
  - unfold find_pedestal_file, fmap, M_fmap, mbind, M_bind, bind, glob_. cbn.
    destruct (sorted _) as [|first [|second rest]]; cbn; [auto| |auto].
    unfold resolve. destruct (realpath w first); cbn; auto.
  - cbn. auto.
  - unfold find_run_summary, mbind, M_bind, bind, exists_. cbn.
    destruct (bool_decide _); cbn; auto.
  - unfold find_time_calibration_file, fmap, M_fmap, mbind, M_bind, bind, rglob_. cbn.
    destruct (sorted _) as [|first rest]; cbn; [auto|].
    unfold resolve. destruct (realpath w first); cbn; auto.
  - unfold find_time_calibration_file, fmap, M_fmap, mbind, M_bind, bind, rglob_.
    fold (time_dir_of base_dir). cbn.
    destruct (sorted _) as [|p0 l0]; [cbn; auto|].
    destruct (last_time_run_before run (p0 :: l0) None w) as [[r w'] tr] eqn:Hloop.
    destruct (last_time_run_before_frame _ _ _ _ _ _ _ Hloop) as (-> & Hm & Hs).
    unfold mutations, searches in *.
    destruct r as [[?|]|]; cbn; rewrite ?app_nil_r, ?Hm, ?Hs; cbn; auto.
Qed.

(** X9. Whatever the order of the files: an answer of the lookup without
    [time_run] is the resolution of a file that was found, whose name
    the parser accepts and whose run is not above the run asked for. *)
Theorem time_calibration_answer_not_above_run w pro run base_dir p :
  outcome (find_time_calibration_file pro run None base_dir) w = Return p ->
  exists c,
    c ∈ rglob w (time_dir_of base_dir) ("*/" +:+ pro +:+ "/time_calibration.Run*.0000.h5") /\
    is_Some (parse_calibration_name c) /\ run_of c <= run /\ p = resolved w c.
Proof.
  set (l := sorted (rglob w (time_dir_of base_dir)
                      ("*/" +:+ pro +:+ "/time_calibration.Run*.0000.h5"))).
  destruct (decide (l = [])) as [Hnil|Hne].
  - unfold find_time_calibration_file, outcome, fmap, M_fmap, mbind, M_bind, bind, rglob_.
    fold (time_dir_of base_dir). fold l. cbn. by rewrite Hnil.
  - destruct (last_time_run_before run l None w) as [[r w'] tr] eqn:Hloop.
    rewrite (find_time_calibration_file_of_loop _ _ _ _ _ _ _ Hne Hloop).
    destruct r as [[q|]|]; try done. intros [= ->].
    destruct (last_time_run_before_sound _ _ _ _ _ _ _ Hloop)
      as [?|(c & r & Hc & Hp & Hle & ->)]; [done|].
    exists c. split; [by apply sorted_elem_of|]. split; [by eexists|].
    by rewrite (run_of_parse _ _ Hp).
Qed.

(** X10. Whatever the order of the files, when each parses and resolves:
    the lookup without [time_run] walks the sorted list up to the first
    file above the run and answers with the last file before it; it
    signals not found when the list is empty or starts above the run.
    Files after the first larger run are never looked at. *)
Theorem time_calibration_takes_last_of_prefix w pro run base_dir :
  let candidates :=
    rglob w (time_dir_of base_dir) ("*/" +:+ pro +:+ "/time_calibration.Run*.0000.h5") in
  (forall p, p ∈ candidates -> is_Some (parse_calibration_name p)) ->
  (forall p, p ∈ candidates -> is_Some (realpath w p)) ->
  outcome (find_time_calibration_file pro run None base_dir) w =
    match last (runs_before run (sorted candidates)) with
    | Some c => Return (resolved w c)
    | None =>
        Raise (mkExn IOError
                 match candidates with
                 | [] => "No time calibration file found in the data tree for prod "
                         +:+ pro +:+ nl
                 | _ => "No time calibration file found before run " +:+ pretty run
                        +:+ " for prod " +:+ pro +:+ nl
                 end)
    end.
Proof.
  intros candidates Hparse Hres.
  destruct (decide (sorted candidates = [])) as [Hnil|Hne].
  - unfold find_time_calibration_file, outcome, fmap, M_fmap, mbind, M_bind, bind, rglob_.
    fold (time_dir_of base_dir). fold candidates. cbn. rewrite Hnil.
    apply (proj1 (sorted_nil _)) in Hnil. by rewrite Hnil.
  - destruct (last_time_run_before_prefix run w (sorted candidates)) with (acc := @None Path)
      as (tr & Hloop).
    { intros p Hp. apply Hparse. by apply sorted_elem_of. }
    { intros p Hp. apply Hres. by apply sorted_elem_of. }
    rewrite (find_time_calibration_file_of_loop _ _ _ _ _ _ _ Hne Hloop).
    destruct (last _); [done|].
    destruct candidates; [|done]. by destruct Hne.
Qed.

(** X11. A file name the parser refuses, met before any file above the run,
    ends the lookup with the parser's error: the name is not skipped,
    and the files before it that would answer are lost. *)
Theorem time_calibration_bad_name_aborts w pro run base_dir pre bad rest :
  sorted (rglob w (time_dir_of base_dir) ("*/" +:+ pro +:+ "/time_calibration.Run*.0000.h5"))
    = pre ++ bad :: rest ->
  (forall p, p ∈ pre -> run_of p <= run /\ is_Some (parse_calibration_name p) /\
                        is_Some (realpath w p)) ->
  parse_calibration_name bad = None ->
  outcome (find_time_calibration_file pro run None base_dir) w
    = Raise (mkExn ParseError (str bad)).
Proof.
  intros Hsorted Hpre Hbad.
  destruct (last_time_run_before_bad_name run w bad rest pre None Hpre Hbad) as (tr & Hloop).
  rewrite <- Hsorted in Hloop.
  rewrite (find_time_calibration_file_of_loop _ _ _ _ _ _ _ ltac:(rewrite Hsorted; by destruct pre) Hloop).
  done.
Qed.

(** X12. With the files in ascending run order (each parsing and resolving):
    when the lookup without [time_run] answers for a run, it answers
    for every later run too, with a file whose run is not smaller. *)
Theorem time_calibration_monotone w pro run1 run2 base_dir p1 :
  let candidates :=
    rglob w (time_dir_of base_dir) ("*/" +:+ pro +:+ "/time_calibration.Run*.0000.h5") in
  (forall p, p ∈ candidates -> is_Some (parse_calibration_name p)) ->
  (forall p, p ∈ candidates -> is_Some (realpath w p)) ->
  runs_ascending (sorted candidates) ->
  run1 <= run2 ->
  outcome (find_time_calibration_file pro run1 None base_dir) w = Return p1 ->
  exists c1 c2,
    c1 ∈ candidates /\ c2 ∈ candidates /\ p1 = resolved w c1 /\
    outcome (find_time_calibration_file pro run2 None base_dir) w = Return (resolved w c2) /\
    run_of c1 <= run_of c2 /\ run_of c2 <= run2.
Proof.
  intros candidates Hparse Hres Hasc Hle.
  assert (Hss : StronglySorted (fun p q => run_of p <= run_of q) (sorted candidates)).
  { apply Sorted_StronglySorted; [|exact Hasc]. intros a b c ? ?. lia. }
  assert (Hparse' : forall p, p ∈ sorted candidates -> is_Some (parse_calibration_name p)).
  { intros p Hp. apply Hparse. by apply sorted_elem_of. }
  assert (Hres' : forall p, p ∈ sorted candidates -> is_Some (realpath w p)).
  { intros p Hp. apply Hres. by apply sorted_elem_of. }
  destruct (decide (sorted candidates = [])) as [Hnil|Hne].
  { unfold find_time_calibration_file, outcome, fmap, M_fmap, mbind, M_bind, bind, rglob_.
    fold (time_dir_of base_dir). fold candidates. cbn. by rewrite Hnil. }
  destruct (last_time_run_before_prefix run1 w _ Hparse' Hres' None) as (tr1 & Hloop1).
  destruct (last_time_run_before_prefix run2 w _ Hparse' Hres' None) as (tr2 & Hloop2).
  rewrite (find_time_calibration_file_of_loop _ _ _ _ _ _ _ Hne Hloop1).
  rewrite (find_time_calibration_file_of_loop _ _ _ _ _ _ _ Hne Hloop2).
  destruct (runs_before_mono run1 run2 (sorted candidates) Hle) as [t Ht].
  destruct (runs_before_prefix run2 (sorted candidates)) as [u Hu].
  destruct (last (runs_before run1 (sorted candidates))) as [c1|] eqn:H1; [|done].
  intros [= <-].
  assert (Hc1 : c1 ∈ runs_before run1 (sorted candidates)) by by apply last_Some_elem_of.
  assert (H2 : exists c2, last (runs_before run2 (sorted candidates)) = Some c2 /\
                          run_of c1 <= run_of c2).
  { rewrite Ht, last_app. destruct (last t) as [c2|] eqn:Hlast.
    - exists c2. split; [done|].
      rewrite Hu, Ht, <- app_assoc in Hss.
      apply (StronglySorted_app_1_elem_of _ _ _ _ _ Hss Hc1).
      apply elem_of_app. left. by apply last_Some_elem_of.
    - exists c1. split; [done|lia]. }
  destruct H2 as (c2 & H2 & Hrun). rewrite H2.
  assert (Hc2 : c2 ∈ runs_before run2 (sorted candidates)) by by apply last_Some_elem_of.
  exists c1, c2. repeat split; try done.
  - apply sorted_elem_of. destruct (runs_before_prefix run1 (sorted candidates)) as [u1 ->].
    apply elem_of_app. by left.
  - apply sorted_elem_of. rewrite Hu. apply elem_of_app. by left.
  - by apply runs_before_below in Hc2.
Qed.

(** X13. With [time_run] given the lookup is by that number alone: not found
    when no file matches, else the resolution of the least match in
    path order; the run asked for and the parser play no part. *)
Theorem time_calibration_by_time_run w pro run time_run base_dir :
  let candidates :=
    rglob w (time_dir_of base_dir)
      ("*/" +:+ pro +:+ "/time_calibration.Run" +:+ fmt_0d 5 time_run +:+ ".0000.h5") in
  let out := outcome (find_time_calibration_file pro run (Some time_run) base_dir) w in
  (candidates = [] ->
   out = Raise (mkExn IOError ("Time calibration file from run " +:+ pretty time_run
                               +:+ " not found" +:+ nl))) /\
  (candidates <> [] ->
   exists first, first ∈ candidates /\ (forall q, q ∈ candidates -> path_le first q) /\
                 out = outcome (resolve first) w) /\
  (forall (names : CalibrationNames) run',
     outcome (@find_time_calibration_file _ names pro run' (Some time_run) base_dir) w = out).
Proof.
  intros candidates out. subst out.
  unfold find_time_calibration_file, outcome, fmap, M_fmap, mbind, M_bind, bind, rglob_.
  fold (time_dir_of base_dir). fold candidates. cbn.
  destruct (sorted candidates) as [|first rest] eqn:Hsorted.
  - apply (proj1 (sorted_nil _)) in Hsorted. cbn. split; [done|]. split; done.
  - destruct (sorted_head_least _ _ _ Hsorted) as [Hin Hleast].
    destruct (resolve first w) as [[r w'] l] eqn:Hres. cbn.
    split; [|split; [|done]].
    + intros Hnil. apply (proj2 (sorted_nil _)) in Hnil. congruence.
    + intros _. exists first. by rewrite Hres.
Qed.

(** X14. The raw-data lookup: not found when no file matches, else the least
    match in path order, as it was found (not resolved); one search of
    the tree and nothing else is asked of the file system. *)
Theorem r0_subrun_least_match_as_found w run sub_run r0_dir :
  let pattern := "LST-1.1.Run" +:+ fmt_0d 5 run +:+ "." +:+ fmt_0d 4 sub_run +:+ "*.fits.fz" in
  let candidates := rglob w r0_dir pattern in
  let out := outcome (find_r0_subrun run sub_run r0_dir) w in
  (candidates = [] ->
   out = Raise (mkExn IOError ("Run " +:+ pretty run +:+ " not found" +:+ nl))) /\
  (candidates <> [] ->
   exists first, first ∈ candidates /\ (forall q, q ∈ candidates -> path_le first q) /\
                 out = Return first) /\
  trace (find_r0_subrun run sub_run r0_dir) w = [EvRglob r0_dir pattern].
Proof.
  intros pattern candidates out. subst out.
  unfold find_r0_subrun, outcome, trace, fmap, M_fmap, mbind, M_bind, bind, rglob_.
  fold pattern. fold candidates. cbn.
  destruct (sorted candidates) as [|first rest] eqn:Hsorted.
  - apply (proj1 (sorted_nil _)) in Hsorted. cbn. split; [done|]. split; done.
  - destruct (sorted_head_least _ _ _ Hsorted) as [Hin Hleast]. cbn.
    split; [|split; [|done]].
    + intros Hnil. apply (proj2 (sorted_nil _)) in Hnil. congruence.
    + intros _. by exists first.
Qed.

(** X15. A [date] that starts with a slash takes the pedestal lookup by date
    out of [base_dir]: the directory searched is the date itself with
    [pro] below it, whatever the base directory is. *)
Theorem pedestal_by_date_anchored_date_leaves_base_dir w pro rest base_dir :
  let date := String "/" rest in
  (forall base_dir',
     find_pedestal_file pro None (Some date) base_dir' w
     = find_pedestal_file pro None (Some date) base_dir w) /\
  searches (trace (find_pedestal_file pro None (Some date) base_dir) w)
  = [EvGlob (Path_of_string date // pro) "drs4_pedestal*.0000.h5"].
Proof.
  intros date. split; [reflexivity|].
  unfold find_pedestal_file, trace, fmap, M_fmap, mbind, M_bind, bind, glob_.
  change (base_dir // "monitoring/PixelCalibration/LevelA/drs4_baseline" // date // pro)
    with (Path_of_string date // pro).
  cbn. destruct (sorted _) as [|first [|second more]]; cbn; [done| |done].
  unfold resolve. by destruct (realpath w first).
Qed.
End MoreLookupFacts.

(** * More examples *)

Lemma create_pro_symlink_makes_link_witness :
  exists l,
    create_pro_symlink dir_v1 site_fresh =
      (Return tt,
       with_nodes site_fresh
         (<[removelast ["data"; "v1"] ++ ["pro"] := Link (mkPath true ["data"; "v1"])]>
            (nodes site_fresh)), l) /\
    mutations l = [EvSymlink (pro_beside ["data"; "v1"]) (mkPath true ["data"; "v1"])].
Proof.
  apply (create_pro_symlink_makes_link site_fresh dir_v1 ["data"; "v1"]).
  - exact I.
  - reflexivity.
  - reflexivity.
Defined.

Lemma create_pro_symlink_replaces_stale_witness :
  exists l,
    create_pro_symlink dir_v1 site_stale =
      (Return tt,
       with_nodes site_stale
         (<[removelast ["data"; "v1"] ++ ["pro"] := Link (mkPath true ["data"; "v1"])]>
            (nodes site_stale)), l) /\
    mutations l = [EvUnlink (pro_beside ["data"; "v1"]);
                   EvSymlink (pro_beside ["data"; "v1"]) (mkPath true ["data"; "v1"])].
Proof.
  apply (create_pro_symlink_replaces_stale site_stale dir_v1 ["data"; "v1"]
           ["data"; "v2"] Dir).
  - exact I.
  - reflexivity.
  - reflexivity.
  - discriminate.
  - vm_compute. discriminate.
Defined.

Lemma create_pro_symlink_spares_directory_witness :
  exists l,
    create_pro_symlink dir_v1 site_directory =
      (Raise (mkExn IsADirectoryError (str (pro_beside ["data"; "v1"]))), site_directory, l) /\
    mutations l = [EvUnlink (pro_beside ["data"; "v1"])].
Proof.
  apply (create_pro_symlink_spares_directory site_directory dir_v1 ["data"; "v1"]).
  - exact I.
  - reflexivity.
  - reflexivity.
  - vm_compute. discriminate.
Defined.

Lemma create_pro_symlink_changes_only_pro_witness :
  let w' := world_after (create_pro_symlink dir_v1) site_stale in
  cwd w' = cwd site_stale /\ homedir w' = homedir site_stale /\
  forall k, nodes w' !! k <> nodes site_stale !! k ->
            k = removelast ["data"; "v1"] ++ ["pro"] /\
            nodes site_stale !! k <> Some Dir /\
            nodes w' !! k = Some (Link (mkPath true ["data"; "v1"])).
Proof.
  intros w'.
  apply (create_pro_symlink_changes_only_pro site_stale dir_v1 ["data"; "v1"]
           (outcome (create_pro_symlink dir_v1) site_stale) w'
           (trace (create_pro_symlink dir_v1) site_stale)).
  - exact I.
  - reflexivity.
  - vm_compute. reflexivity.
Defined.

Lemma create_pro_symlink_returns_pointing_witness :
  let w' := world_after (create_pro_symlink dir_v2) site_relative in
  stat w' (pro_beside ["data"; "v2"]) = Some (["data"; "v2"], Dir) /\
  dir_of w' (mkPath true ["data"; "v2"]) = Some ["data"; "v2"].
Proof.
  intros w'.
  apply (create_pro_symlink_returns_pointing site_relative dir_v2 ["data"; "v2"] w'
           (trace (create_pro_symlink dir_v2) site_relative)).
  - exact I.
  - reflexivity.
  - vm_compute. reflexivity.
Defined.

Lemma create_pro_symlink_missing_directory_dangles_witness :
  exists w' l,
    create_pro_symlink (mkPath true (["data"] ++ ["v3"])) site_fresh = (Return tt, w', l) /\
    nodes w' !! (["data"] ++ ["pro"]) = Some (Link (mkPath true (["data"] ++ ["v3"]))) /\
    stat w' (mkPath true (["data"] ++ ["pro"])) = None.
Proof.
  apply (create_pro_symlink_missing_directory_dangles site_fresh ["data"] "v3").
  - vm_compute. tauto.
  - reflexivity.
  - reflexivity.
  - discriminate.
  - reflexivity.
  - reflexivity.
Defined.

Lemma create_pro_symlink_missing_then_blocked_witness :
  exists w' l l',
    create_pro_symlink (mkPath true (["data"] ++ ["v3"])) site_fresh = (Return tt, w', l) /\
    create_pro_symlink (mkPath true (["data"] ++ ["v1"])) w' =
      (Raise (mkExn FileExistsError (str (mkPath true (["data"] ++ ["pro"])))), w', l').
Proof.
  apply (create_pro_symlink_missing_then_blocked site_fresh ["data"] "v3" "v1").
  - exact I.
  - vm_compute. tauto.
  - reflexivity.
  - reflexivity.
  - discriminate.
  - reflexivity.
  - reflexivity.
Defined.

Section MoreExamples.
#[local] Existing Instance plain_pathlib.
#[local] Existing Instance spec_names.

Lemma time_calibration_answer_not_above_run_witness :
  let w := tree_dates_against_runs in
  exists c,
    c ∈ rglob w (time_dir_of base) ("*/" +:+ "v1" +:+ "/time_calibration.Run*.0000.h5") /\
    is_Some (parse_calibration_name c) /\ run_of c <= 112 /\
    time_file "20200102" "v1" "time_calibration.Run00105.0000.h5" = resolved w c.
Proof.
  intros w.
  apply (time_calibration_answer_not_above_run w "v1" 112 base
           (time_file "20200102" "v1" "time_calibration.Run00105.0000.h5")).
  vm_compute. reflexivity.
Defined.

Lemma time_calibration_takes_last_of_prefix_witness :
  let w := tree_dates_against_runs in
  let candidates :=
    rglob w (time_dir_of base) ("*/" +:+ "v1" +:+ "/time_calibration.Run*.0000.h5") in
  outcome (find_time_calibration_file "v1" 107 None base) w =
    match last (runs_before 107 (sorted candidates)) with
    | Some c => Return (resolved w c)
    | None =>
        Raise (mkExn IOError
                 match candidates with
                 | [] => "No time calibration file found in the data tree for prod "
                         +:+ "v1" +:+ nl
                 | _ => "No time calibration file found before run " +:+ pretty 107
                        +:+ " for prod " +:+ "v1" +:+ nl
                 end)
    end.
Proof.
  intros w candidates.
  apply (time_calibration_takes_last_of_prefix w "v1" 107 base).
  - apply Forall_forall. apply (bool_decide_unpack _). vm_compute. exact I.
  - apply Forall_forall. apply (bool_decide_unpack _). vm_compute. exact I.
Defined.

Lemma time_calibration_bad_name_aborts_witness :
  let w := tree_bad_name in
  let bad := time_file "20200101" "v1" "time_calibration.RunXX.0000.h5" in
  outcome (find_time_calibration_file "v1" 105 None base) w
  = Raise (mkExn ParseError (str bad)).
Proof.
  intros w bad.
  apply (time_calibration_bad_name_aborts w "v1" 105 base
           [time_file "20200101" "v1" "time_calibration.Run00100.0000.h5"] bad
           [time_file "20200102" "v1" "time_calibration.Run00110.0000.h5"]).
  - vm_compute. reflexivity.
  - apply Forall_forall. apply (bool_decide_unpack _). vm_compute. exact I.
  - vm_compute. reflexivity.
Defined.

Lemma time_calibration_monotone_witness :
  let w := tree_three_runs in
  let candidates :=
    rglob w (time_dir_of base) ("*/" +:+ "v1" +:+ "/time_calibration.Run*.0000.h5") in
  exists c1 c2,
    c1 ∈ candidates /\ c2 ∈ candidates /\
    time_file "20200101" "v1" "time_calibration.Run00100.0000.h5" = resolved w c1 /\
    outcome (find_time_calibration_file "v1" 107 None base) w = Return (resolved w c2) /\
    run_of c1 <= run_of c2 /\ run_of c2 <= 107.
Proof.
  intros w candidates.
  apply (time_calibration_monotone w "v1" 100 107 base
           (time_file "20200101" "v1" "time_calibration.Run00100.0000.h5")).
  - apply Forall_forall. apply (bool_decide_unpack _). vm_compute. exact I.
  - apply Forall_forall. apply (bool_decide_unpack _). vm_compute. exact I.
  - apply (bool_decide_unpack _). vm_compute. exact I.
  - lia.
  - vm_compute. reflexivity.
Defined.

Lemma time_calibration_by_time_run_witness :
  let w := tree_three_runs in
  let candidates :=
    rglob w (time_dir_of base)
      ("*/" +:+ "v1" +:+ "/time_calibration.Run" +:+ fmt_0d 5 105 +:+ ".0000.h5") in
  exists first, first ∈ candidates /\ (forall q, q ∈ candidates -> path_le first q) /\
                outcome (find_time_calibration_file "v1" 99 (Some 105) base) w
                = outcome (resolve first) w.
Proof.
  intros w candidates.
  apply (proj1 (proj2 (time_calibration_by_time_run w "v1" 99 105 base))).
  vm_compute. discriminate.
Defined.

Lemma r0_subrun_least_match_as_found_witness :
  let w := tree_r0 in
  let candidates :=
    rglob w r0_dir ("LST-1.1.Run" +:+ fmt_0d 5 100 +:+ "." +:+ fmt_0d 4 0 +:+ "*.fits.fz") in
  exists first, first ∈ candidates /\ (forall q, q ∈ candidates -> path_le first q) /\
                outcome (find_r0_subrun 100 0 r0_dir) w = Return first.
Proof.
  intros w candidates.
  apply (proj1 (proj2 (r0_subrun_least_match_as_found w 100 0 r0_dir))).
  vm_compute. discriminate.
Defined.

(** The raw-data lookup on two dates: the earlier date wins, and the
    answer is the path as it was found. *)
Example r0_subrun_two_dates :
  outcome (find_r0_subrun 100 0 r0_dir) tree_r0
  = Return (mkPath true ["data"; "R0"; "20200101"; "LST-1.1.Run00100.0000.fits.fz"]).
Proof. vm_compute. reflexivity. Qed.

(** The name the parser refuses is not reached when a larger run comes
    first. *)
Example bad_name_not_reached :
  outcome (find_time_calibration_file "v1" 99 None base) tree_bad_name
  = Raise (mkExn IOError
             ("No time calibration file found before run 99 for prod v1" +:+ nl)).
Proof. vm_compute. reflexivity. Qed.
End MoreExamples.
